(** * Bundle transfer to and from an OCI registry (pkg/cnab/cnab-to-oci/registry.go)

    A shallow embedding of [PullBundle], [PushBundle] and [ParseOCIReference]
    of package [cnabtooci].  The registry client, the reference parser, the
    credential store and the formatting of [fmt] are libraries outside the
    package: they are gathered in the record [Library] and every operation
    is parameterised by it.  Calls into the library and writes to the
    context's [Out] and [Err] streams are recorded, in order, in a log. *)

From stdpp Require Import gmap strings list fin_maps.

Set Default Proof Using "Type".
Open Scope string_scope.
Open Scope list_scope.

(** ** Go values *)

(** An [error] value, by dynamic type.  [errors.New] and [fmt.Errorf]
    (without [%w]) build an [errorString]; [errors.Wrap] and [errors.Wrapf]
    of github.com/pkg/errors build a [withStack] around the cause and the
    message; [foreign] stands for an error of any other dynamic type that a
    library hands back.  A nil [error] is [None : option error]. *)
Inductive error : Type :=
| errorString (s : string)
| withStack (cause : error) (msg : string)
| foreign (dynamicType : string) (s : string).

(** The [Error() string] method. *)
Fixpoint Error (e : error) : string :=
  match e with
  | errorString s => s
  | withStack cause msg => msg +:+ ": " +:+ Error cause
  | foreign _ s => s
  end.

(** [errors.Wrap(err, message)] and [errors.Wrapf(err, format, args...)] for
    a non-nil [err], the message being already formatted. *)
Definition Wrap (err : error) (message : string) : error :=
  withStack err message.

(** [type ErrNoContentDigest error]: the same interface as [error]. *)
Definition ErrNoContentDigest : Type := error.

(** [NewErrNoContentDigest] returns an ErrNoContentDigest formatted with the
    provided image name. *)
Definition NewErrNoContentDigest (image : string) : ErrNoContentDigest :=
  errorString
    ("unable to verify that the pulled image " +:+ image +:+
     " is the invocation image referenced by the bundle because the bundle does not specify a content digest. This could allow for the invocation image to be replaced or tampered with").

(** [_, ok := err.(ErrNoContentDigest)].  A type assertion to an interface
    type holds when the value is not nil and its dynamic type has the
    methods of the interface; those of [ErrNoContentDigest] are those of
    [error], that is [Error() string], which every dynamic type of an
    [error] has. *)
Definition isErrNoContentDigest (err : option error) : bool :=
  match err with
  | Some _ => true
  | None => false
  end.

(** The line feed that [fmt.Fprintln] appends and ["\n"] denotes. *)
Definition newline : string := String (Ascii.ascii_of_nat 10) EmptyString.

(** The result of a library call that returns [(value, error)]. *)
Inductive result (A : Type) : Type :=
| Ok (a : A)
| Err (err : error).
Arguments Ok {A} a.
Arguments Err {A} err.

(** A pointer [*T], as far as the package uses one: nil or the address of a
    value. *)
Inductive ptr (A : Type) : Type :=
| nil_ptr
| addr_of (a : A).
Arguments nil_ptr {A}.
Arguments addr_of {A} a.

(** [relocation.ImageRelocationMap] is [map[string]string]: the nil map or a
    map that was made. *)
Inductive ImageRelocationMap : Type :=
| nil_map
| make_map (m : gmap string string).

Definition len (m : ImageRelocationMap) : nat :=
  match m with
  | nil_map => 0
  | make_map m => size m
  end.

(** [remotes.FixupEvent], with the fields [displayEvent] reads. *)
Inductive FixupEventType : Type :=
| FixupEventTypeCopyImageStart
| FixupEventTypeCopyImageEnd
| FixupEventTypeProgress.

Record FixupEvent : Type := {
  SourceImage : string;
  EventType : FixupEventType;
  EventError : option error
}.

(** [portercontext.Context], with the field the package reads. *)
Record Context : Type := { Debug : bool }.

Section Bundle.
(** The fields of [bundle.BaseImage] and [bundle.Bundle] that the package
    does not touch. *)
Variables ImageMeta BundleMeta : Type.

Record InvocationImage : Type := {
  Image : string;
  Digest : string;
  ImageOther : ImageMeta
}.

Record Bundle : Type := {
  InvocationImages : list InvocationImage;
  BundleOther : BundleMeta
}.
End Bundle.
Arguments Image {ImageMeta} _.
Arguments Digest {ImageMeta} _.
Arguments ImageOther {ImageMeta} _.
Arguments InvocationImages {ImageMeta BundleMeta} _.
Arguments BundleOther {ImageMeta BundleMeta} _.

(** ** The libraries the package calls *)

Record Library : Type := {
  (** registry and network state *)
  World : Type;
  (** [reference.Named] *)
  Named : Type;
  (** [containerdRemotes.Resolver] *)
  Resolver : Type;
  (** [*configfile.ConfigFile] *)
  ConfigFile : Type;
  ImageMeta : Type;
  BundleMeta : Type;
  (** the zero value of the untouched bundle fields, for [bundle.Bundle{}] *)
  zeroBundleMeta : BundleMeta;
  (** [reference.ParseNormalizedNamed] *)
  ParseNormalizedNamed : string -> result Named;
  (** [reference.Domain] *)
  Domain : Named -> string;
  (** the [String()] method of a [reference.Named] *)
  String_ : Named -> string;
  (** [strconv.Quote], the [%q] verb *)
  Quote : string -> string;
  (** [dockerconfig.LoadDefaultConfigFile(stderr)]: the configuration and
      the warnings it writes to [stderr] *)
  LoadDefaultConfigFile : World -> ConfigFile * string;
  (** [remotes.CreateResolver(cfg, plainHTTPRegistries...)] *)
  CreateResolver : ConfigFile -> list string -> Resolver;
  (** [remotes.Pull(ctx, ref, resolver)] *)
  Pull :
    Named -> Resolver -> World ->
    result (ptr (Bundle ImageMeta BundleMeta) * ImageRelocationMap) * World;
  (** [remotes.FixupBundle(ctx, &bun, ref, resolver, WithEventCallback(cb),
      WithAutoBundleUpdate(), WithRelocationMap(reloMap))]: the events handed
      to the callback, the bundle as updated in place, and the result *)
  FixupBundle :
    Bundle ImageMeta BundleMeta -> Named -> Resolver -> ImageRelocationMap ->
    World ->
    (list FixupEvent * Bundle ImageMeta BundleMeta * result ImageRelocationMap)
    * World;
  (** [remotes.Push(ctx, &bun, rm, ref, resolver, true)]: the digest of the
      published descriptor *)
  Push :
    Bundle ImageMeta BundleMeta -> ImageRelocationMap -> Named -> Resolver ->
    World -> result string * World
}.

Section Registry.
Context (L : Library).

Abbreviation bundle := (Bundle (ImageMeta L) (BundleMeta L)).

(** [bundle.Bundle{}] *)
Definition zeroBundle : bundle :=
  {| InvocationImages := []; BundleOther := zeroBundleMeta L |}.

(** *** Effects *)

(** What a call of the package does, in order. *)
Inductive Event : Type :=
| WriteOut (s : string)
| WriteErr (s : string)
| CallLoadDefaultConfigFile (written : string)
| CallCreateResolver (insecureRegistries : list string)
| CallPull (ref : Named L) (resolver : Resolver L)
| CallFixupBundle (bun : bundle) (ref : Named L) (resolver : Resolver L)
    (reloMap : ImageRelocationMap)
| CallPush (bun : bundle) (rm : ImageRelocationMap) (ref : Named L)
    (resolver : Resolver L).

(** A call returns or panics; either way it leaves a world and a log. *)
Inductive Outcome (A : Type) : Type :=
| Returned (a : A) (w : World L) (log : list Event)
| Panicked (reason : string) (w : World L) (log : list Event).
Arguments Returned {A} a w log.
Arguments Panicked {A} reason w log.

Definition M (A : Type) : Type := World L -> Outcome A.

Definition ret {A} (a : A) : M A := fun w => Returned a w [].

Definition bind {A B} (c : M A) (k : A -> M B) : M B :=
  fun w =>
    match c w with
    | Returned a w1 log1 =>
        match k a w1 with
        | Returned b w2 log2 => Returned b w2 (log1 ++ log2)
        | Panicked reason w2 log2 => Panicked reason w2 (log1 ++ log2)
        end
    | Panicked reason w1 log1 => Panicked reason w1 log1
    end.

Definition panic {A} (reason : string) : M A :=
  fun w => Panicked reason w [].

Definition emit (e : Event) : M unit := fun w => Returned tt w [e].

(** A library call that reads or changes the world. *)
Definition call {A} (e : Event) (f : World L -> A * World L) : M A :=
  fun w => let '(a, w') := f w in Returned a w' [e].

(** [dockerconfig.LoadDefaultConfigFile(r.Out)]: reads the credential
    store; what it writes goes to [Out]. *)
Definition loadDefaultConfigFile : M (ConfigFile L) :=
  fun w =>
    let '(cfg, written) := LoadDefaultConfigFile L w in
    Returned cfg w [CallLoadDefaultConfigFile written].

Notation "x <- c ;; k" := (bind c (fun x => k))
  (at level 100, c at next level, right associativity).
Notation "c ;; k" := (bind c (fun _ => k))
  (at level 100, right associativity).

Definition log_of {A} (o : Outcome A) : list Event :=
  match o with
  | Returned _ _ log => log
  | Panicked _ _ log => log
  end.

Variable r : Context.

(** *** The package *)

(** [ParseOCIReference] *)
Definition ParseOCIReference (ociRef : string) : result (Named L) :=
  ParseNormalizedNamed L ociRef.

(** [var insecureRegistries []string; if insecureRegistry { reg :=
    reference.Domain(ref); insecureRegistries = append(insecureRegistries,
    reg) }], as both operations have it. *)
Definition insecureRegistriesOf (insecureRegistry : bool) (ref : Named L)
  : list string :=
  let insecureRegistries := [] in
  if insecureRegistry then
    let reg := Domain L ref in
    insecureRegistries ++ [reg]
  else insecureRegistries.

(** [createResolver] *)
Definition createResolver (insecureRegistries : list string)
  : M (Resolver L) :=
  cfg <- loadDefaultConfigFile ;;
  emit (CallCreateResolver insecureRegistries) ;;
  ret (CreateResolver L cfg insecureRegistries).

(** [PullBundle] pulls a bundle from an OCI registry.  Returns the bundle,
    and an optional image relocation mapping, if applicable. *)
Definition PullBundle (tag : string) (insecureRegistry : bool)
  : M (bundle * ptr ImageRelocationMap * option error) :=
  match ParseNormalizedNamed L tag with
  | Err err =>
      ret (zeroBundle, nil_ptr,
           Some (Wrap err "invalid bundle tag format, expected REGISTRY/name:tag"))
  | Ok ref =>
      let insecureRegistries := insecureRegistriesOf insecureRegistry ref in
      (if Debug r then
         let msg := "Pulling bundle " +:+ String_ L ref in
         let msg :=
           if insecureRegistry then msg +:+ " with --insecure-registry"
           else msg in
         emit (WriteErr (msg +:+ newline))
       else ret tt) ;;
      resolver <- createResolver insecureRegistries ;;
      pulled <- call (CallPull ref resolver) (Pull L ref resolver) ;;
      match pulled with
      | Err err =>
          ret (zeroBundle, nil_ptr,
               Some (Wrap err "unable to pull remote bundle"))
      | Ok (nil_ptr, _) =>
          panic "runtime error: invalid memory address or nil pointer dereference"
      | Ok (addr_of bun, reloMap) =>
          match InvocationImages bun with
          | [] => panic "runtime error: index out of range [0] with length 0"
          | invocationImage :: _ =>
              if String.eqb (Digest invocationImage) EmptyString then
                ret (zeroBundle, nil_ptr,
                     Some (NewErrNoContentDigest (Image invocationImage)))
              else if Nat.eqb (len reloMap) 0 then
                ret (bun, nil_ptr, None)
              else ret (bun, addr_of reloMap, None)
          end
      end
  end.

(** [displayEvent], the callback handed to the fixup. *)
Definition displayEvent (ev : FixupEvent) : M unit :=
  match EventType ev with
  | FixupEventTypeCopyImageStart =>
      emit (WriteOut
              ("Starting to copy image " +:+ SourceImage ev +:+ "..." +:+
               newline))
  | FixupEventTypeCopyImageEnd =>
      match EventError ev with
      | Some err =>
          emit (WriteOut
                  ("Failed to copy image " +:+ SourceImage ev +:+ ": " +:+
                   Error err +:+ newline))
      | None =>
          emit (WriteOut
                  ("Completed image " +:+ SourceImage ev +:+ " copy" +:+
                   newline))
      end
  | FixupEventTypeProgress => ret tt
  end.

Fixpoint displayEvents (evs : list FixupEvent) : M unit :=
  match evs with
  | [] => ret tt
  | ev :: evs => displayEvent ev ;; displayEvents evs
  end.

(** [remotes.FixupBundle(ctx, &bun, ref, resolver,
    remotes.WithEventCallback(r.displayEvent),
    remotes.WithAutoBundleUpdate(), remotes.WithRelocationMap(reloMap))]:
    the call, then what the callback writes for the events of that call. *)
Definition fixupBundle (bun : bundle) (ref : Named L)
    (resolver : Resolver L) (reloMap : ImageRelocationMap)
  : M (bundle * result ImageRelocationMap) :=
  fixed <- call (CallFixupBundle bun ref resolver reloMap)
             (FixupBundle L bun ref resolver reloMap) ;;
  displayEvents (fst (fst fixed)) ;;
  ret (snd (fst fixed), snd fixed).

(** [PushBundle] *)
Definition PushBundle (bun : bundle) (tag : string)
    (reloMap : ImageRelocationMap) (insecureRegistry : bool)
  : M (ptr ImageRelocationMap * option error) :=
  match ParseOCIReference tag with
  | Err err =>
      ret (nil_ptr,
           Some (Wrap err "invalid bundle tag reference. expected value is REGISTRY/bundle:tag"))
  | Ok ref =>
      let insecureRegistries := insecureRegistriesOf insecureRegistry ref in
      resolver <- createResolver insecureRegistries ;;
      (* Initialize the relocation map if necessary *)
      let reloMap :=
        match reloMap with
        | nil_map => make_map ∅
        | make_map _ => reloMap
        end in
      fixed <- fixupBundle bun ref resolver reloMap ;;
      let bun := fst fixed in
      match snd fixed with
      | Err err =>
          ret (nil_ptr,
               Some (Wrap err "error preparing the bundle with cnab-to-oci before pushing"))
      | Ok rm =>
          pushed <- call (CallPush bun rm ref resolver)
                      (Push L bun rm ref resolver) ;;
          match pushed with
          | Err err =>
              ret (nil_ptr,
                   Some (Wrap err ("error pushing the bundle to " +:+ tag)))
          | Ok d =>
              emit (WriteOut
                      ("Bundle tag " +:+ String_ L ref +:+
                       " pushed successfully, with digest " +:+
                       Quote L d +:+ newline)) ;;
              if Nat.eqb (len rm) 0 then ret (nil_ptr, None)
              else ret (addr_of rm, None)
          end
      end
  end.

(** *** Reading a log and a call's arguments *)

(** The resolver a call made in world [w] builds for [ref]. *)
Definition resolverAt (w : World L) (insecureRegistry : bool)
    (ref : Named L) : Resolver L :=
  CreateResolver L (fst (LoadDefaultConfigFile L w))
    (insecureRegistriesOf insecureRegistry ref).

(** The insecure-registry lists handed to [remotes.CreateResolver]. *)
Definition allowlists (log : list Event) : list (list string) :=
  omap (fun e => match e with
                 | CallCreateResolver l => Some l
                 | _ => None
                 end) log.

(** The relocation maps handed to [remotes.FixupBundle]. *)
Definition fixupMaps (log : list Event) : list ImageRelocationMap :=
  omap (fun e => match e with
                 | CallFixupBundle _ _ _ reloMap => Some reloMap
                 | _ => None
                 end) log.

(** Is the event a manifest publish, [remotes.Push]? *)
Definition isPush (e : Event) : bool :=
  match e with
  | CallPush _ _ _ _ => true
  | _ => false
  end.

Abbreviation pulled :=
  (Bundle (ImageMeta L) (BundleMeta L) * ptr ImageRelocationMap *
   option error)%type.

(** The error a pull hands back, if it returns one. *)
Definition pullError (o : Outcome pulled) : option error :=
  match o with
  | Returned (_, _, err) _ _ => err
  | Panicked _ _ _ => None
  end.

(** A pull fails generically when the reference does not parse or the
    transport reports an error. *)
Definition genericPullFailure (tag : string) (insecureRegistry : bool)
    (w : World L) : Prop :=
  match ParseNormalizedNamed L tag with
  | Err _ => True
  | Ok ref =>
      match fst (Pull L ref (resolverAt w insecureRegistry ref) w) with
      | Err _ => True
      | Ok _ => False
      end
  end.

(** The log of a pull up to and including the transport call. *)
Definition pullLog (insecureRegistry : bool) (ref : Named L) (w : World L)
  : list Event :=
  (if Debug r then
     [WriteErr
        ((if insecureRegistry
          then ("Pulling bundle " +:+ String_ L ref) +:+
               " with --insecure-registry"
          else "Pulling bundle " +:+ String_ L ref) +:+ newline)]
   else []) ++
  [CallLoadDefaultConfigFile (snd (LoadDefaultConfigFile L w));
   CallCreateResolver (insecureRegistriesOf insecureRegistry ref);
   CallPull ref (resolverAt w insecureRegistry ref)].

(** The relocation map a push hands to the fixup. *)
Definition initialised (reloMap : ImageRelocationMap)
  : ImageRelocationMap :=
  match reloMap with
  | nil_map => make_map ∅
  | make_map _ => reloMap
  end.

(** What the callback writes for one event and for the events of a
    fixup. *)
Definition displayed1 (ev : FixupEvent) : list Event :=
  match EventType ev with
  | FixupEventTypeCopyImageStart =>
      [WriteOut
         ("Starting to copy image " +:+ SourceImage ev +:+ "..." +:+
          newline)]
  | FixupEventTypeCopyImageEnd =>
      match EventError ev with
      | Some err =>
          [WriteOut
             ("Failed to copy image " +:+ SourceImage ev +:+ ": " +:+
              Error err +:+ newline)]
      | None =>
          [WriteOut
             ("Completed image " +:+ SourceImage ev +:+ " copy" +:+
              newline)]
      end
  | FixupEventTypeProgress => []
  end.

Definition displayed (evs : list FixupEvent) : list Event :=
  evs ≫= displayed1.

(** The log of a push up to the end of the fixup. *)
Definition fixupLog (bun : Bundle (ImageMeta L) (BundleMeta L))
    (reloMap : ImageRelocationMap) (insecureRegistry : bool)
    (ref : Named L) (w : World L) : list Event :=
  let resolver := resolverAt w insecureRegistry ref in
  [CallLoadDefaultConfigFile (snd (LoadDefaultConfigFile L w));
   CallCreateResolver (insecureRegistriesOf insecureRegistry ref);
   CallFixupBundle bun ref resolver (initialised reloMap)] ++
  displayed
    (fst (fst (fst (FixupBundle L bun ref resolver (initialised reloMap)
                      w)))).

(** The line a successful push writes to [Out]. *)
Definition pushedLine (ref : Named L) (d : string) : string :=
  "Bundle tag " +:+ String_ L ref +:+
  " pushed successfully, with digest " +:+ Quote L d +:+ newline.

End Registry.

Arguments Returned {L A} a w log.
Arguments Panicked {L A} reason w log.
Arguments WriteOut {L} s.
Arguments WriteErr {L} s.
Arguments CallLoadDefaultConfigFile {L} written.
Arguments CallCreateResolver {L} insecureRegistries.
Arguments CallPull {L} ref resolver.
Arguments CallFixupBundle {L} bun ref resolver reloMap.
Arguments CallPush {L} bun rm ref resolver.
Arguments log_of {L A} o.
Arguments allowlists {L} log.
Arguments fixupMaps {L} log.
Arguments isPush {L} e.
Arguments pullError {L} o.

(** ** A registry in memory

    A small instance of [Library], on which the package runs to a value:
    references are plain strings, the world maps a reference to the bundle
    and relocation map stored under it, an image without a name cannot be
    copied, and nothing can be published to [readonly.example]. *)
Module Toy.

Fixpoint before_slash (s : string) : string :=
  match s with
  | EmptyString => EmptyString
  | String c s' =>
      if Ascii.eqb c (Ascii.ascii_of_nat 47) then EmptyString
      else String c (before_slash s')
  end.

Definition quote (s : string) : string :=
  String (Ascii.ascii_of_nat 34) s +:+
  String (Ascii.ascii_of_nat 34) EmptyString.

Definition stored : Type := ptr (Bundle unit unit) * ImageRelocationMap.

Definition images (bun : Bundle unit unit) : list string :=
  Image <$> InvocationImages bun.

Definition copyEvents (image : string) (e : option error)
  : list FixupEvent :=
  [ {| SourceImage := image; EventType := FixupEventTypeCopyImageStart;
       EventError := None |};
    {| SourceImage := image; EventType := FixupEventTypeCopyImageEnd;
       EventError := e |} ].

Definition entries (m : ImageRelocationMap) : gmap string string :=
  match m with
  | nil_map => ∅
  | make_map m => m
  end.

(** The digest of a published manifest: it depends on the digests of the
    images the bundle lists. *)
Definition manifestDigest (bun : Bundle unit unit) : string :=
  "sha256:" +:+ String.concat "+" (Digest <$> InvocationImages bun).

Definition lib : Library := {|
  World := gmap string stored;
  Named := string;
  Resolver := list string;
  ConfigFile := unit;
  ImageMeta := unit;
  BundleMeta := unit;
  zeroBundleMeta := tt;
  ParseNormalizedNamed := fun s =>
    if String.eqb s EmptyString
    then Err (errorString "invalid reference format")
    else Ok s;
  Domain := before_slash;
  String_ := fun s => s;
  Quote := quote;
  LoadDefaultConfigFile := fun _ => (tt, EmptyString);
  CreateResolver := fun _ insecureRegistries => insecureRegistries;
  Pull := fun ref _ w =>
    match w !! ref with
    | Some found => (Ok found, w)
    | None => (Err (foreign "*errdefs.errNotFound" "not found"), w)
    end;
  FixupBundle := fun bun ref _ reloMap w =>
    if bool_decide (EmptyString ∈ images bun) then
      (copyEvents EmptyString (Some (errorString "copy failed")), bun,
       Err (errorString "copy failed"), w)
    else
      (images bun ≫= (fun image => copyEvents image None), bun,
       Ok (make_map
             (foldr (fun image m =>
                       <[image := before_slash ref +:+ "/" +:+ image]> m)
                (entries reloMap) (images bun))), w);
  Push := fun bun rm ref _ w =>
    if String.eqb (before_slash ref) "readonly.example"
    then (Err (foreign "*errdefs.errForbidden" "denied"), w)
    else (Ok (manifestDigest bun), <[ref := (addr_of bun, rm)]> w)
|}.

Definition image (name digest : string) : InvocationImage unit :=
  {| Image := name; Digest := digest; ImageOther := tt |}.

Definition bun (imgs : list (InvocationImage unit)) : Bundle unit unit :=
  {| InvocationImages := imgs; BundleOther := tt |}.

Definition quiet : Context := {| Debug := false |}.
Definition verbose : Context := {| Debug := true |}.

(** A registry holding a digested bundle with a relocation map, a digested
    bundle without one, a bundle whose invocation image has no digest, and
    a bundle without invocation images. *)
Definition hub : World lib :=
  <["reg.example/app:v1" :=
      (addr_of (bun [image "reg.example/img" "sha256:aaa"]),
       make_map {["orig/img:1" := "reg.example/img@sha256:aaa"]})]>
  (<["reg.example/plain:v1" :=
      (addr_of (bun [image "reg.example/img" "sha256:aaa"]), make_map ∅)]>
  (<["reg.example/loose:v1" :=
      (addr_of (bun [image "reg.example/img" EmptyString;
                     image "reg.example/aux" "sha256:bbb"]),
       make_map {["orig/img:1" := "reg.example/img"]})]>
  (<["reg.example/hollow:v1" := (addr_of (bun []), nil_map)]> ∅))).

End Toy.

(** ** Small worlds

    A registry that holds one bundle, a world that holds nothing, and two
    worlds in which the Docker client is out of order. *)
Module ToyWorlds.

Definition shelf : World Toy.lib :=
  {["reg.example/app:v1" :=
      (addr_of (Toy.bun [Toy.image "reg.example/img" "sha256:aaa"]),
       make_map {["orig/img:1" := "reg.example/img@sha256:aaa"]})]}.

Definition bare : World Toy.lib := ∅.

Definition noconfig : World Toy.lib :=
  {["docker:noconfig" := (nil_ptr, nil_map)]}.

Definition nodaemon : World Toy.lib :=
  {["docker:nodaemon" := (nil_ptr, nil_map)]}.

End ToyWorlds.

(** ** The result of a push, as the specification words it

    [Push(...) -> (RelocationMap?, digest string, error)]: the value a push
    returns carries the digest of the manifest it published, that is, the
    digest can be read off the returned value, whatever the library. *)
Definition Push_returns_digest : Prop :=
  exists digest_of : ptr ImageRelocationMap * option error -> string,
    forall (L : Library) bun tag reloMap ins w ref evs fixed rm w1 d w2 v w'
           log,
      ParseNormalizedNamed L tag = Ok ref ->
      FixupBundle L bun ref (resolverAt L w ins ref) (initialised reloMap) w =
        (evs, fixed, Ok rm, w1) ->
      Push L fixed rm ref (resolverAt L w ins ref) w1 = (Ok d, w2) ->
      PushBundle L bun tag reloMap ins w = Returned v w' log ->
      digest_of v = d.

(** ** More ways to read a log *)

Section Reading.
Context (L : Library).

(** The kind of a transport call. *)
Inductive Transport : Type :=
| TransportPull
| TransportFixup
| TransportPush.

(** The transport calls of a log, in order. *)
Definition transportCalls (log : list (Event L)) : list Transport :=
  omap (fun e => match e with
                 | CallPull _ _ => Some TransportPull
                 | CallFixupBundle _ _ _ _ => Some TransportFixup
                 | CallPush _ _ _ _ => Some TransportPush
                 | _ => None
                 end) log.

(** The resolvers handed to the transport, in order. *)
Definition resolvers (log : list (Event L)) : list (Resolver L) :=
  omap (fun e => match e with
                 | CallPull _ resolver => Some resolver
                 | CallFixupBundle _ _ resolver _ => Some resolver
                 | CallPush _ _ _ resolver => Some resolver
                 | _ => None
                 end) log.

(** The world a call leaves. *)
Definition world_of {A} (o : Outcome L A) : World L :=
  match o with
  | Returned _ w _ => w
  | Panicked _ w _ => w
  end.

(** Is the event a write to [Err]? *)
Definition isWriteErr (e : Event L) : bool :=
  match e with
  | WriteErr _ => true
  | _ => false
  end.

(** Is the event a write of the package to [Out]? *)
Definition isWriteOut (e : Event L) : bool :=
  match e with
  | WriteOut _ => true
  | _ => false
  end.

(** An outcome, without what was written to [Err]. *)
Definition withoutErr {A} (o : Outcome L A) : Outcome L A :=
  match o with
  | Returned a w log =>
      Returned a w (filter (fun e => isWriteErr e = false) log)
  | Panicked reason w log =>
      Panicked reason w (filter (fun e => isWriteErr e = false) log)
  end.

(** Does the log hold a write of the package to [Out] that begins with
    [Bundle tag ], as the write of a successful push does?  A write is what
    one call of [fmt.Fprintf] puts out, whatever line feeds it holds. *)
Definition writesBundleTag (log : list (Event L)) : bool :=
  existsb (fun e => match e with
                    | WriteOut written => String.prefix "Bundle tag " written
                    | _ => false
                    end) log.

(** Is the fixup event one that [displayEvent] reports? *)
Definition isCopyEvent (ev : FixupEvent) : bool :=
  match EventType ev with
  | FixupEventTypeCopyImageStart | FixupEventTypeCopyImageEnd => true
  | FixupEventTypeProgress => false
  end.

End Reading.

Arguments transportCalls {L} log.
Arguments resolvers {L} log.
Arguments world_of {L A} o.
Arguments isWriteErr {L} e.
Arguments isWriteOut {L} e.
Arguments withoutErr {L A} o.
Arguments writesBundleTag {L} log.

(** ** Pushing the invocation image

    [PushInvocationImage] and [getDockerClient] talk to the Docker client
    libraries, gathered in the record [Docker].  Their calls are recorded
    with what they returned. *)

(** [types.ImagePushOptions], with the fields the package sets. *)
Record ImagePushOptions : Type := {
  All : bool;
  RegistryAuth : string
}.

Record Docker (L : Library) : Type := {
  (** [*command.DockerCli] *)
  DockerCli : Type;
  (** [*registry.RepositoryInfo] and its [Index] *)
  RepositoryInfo : Type;
  IndexInfo : Type;
  Index : RepositoryInfo -> IndexInfo;
  (** [types.AuthConfig] *)
  AuthConfig : Type;
  (** the [io.ReadCloser] of a push *)
  ReadCloser : Type;
  (** [command.NewDockerCli()] *)
  NewDockerCli : World L -> result DockerCli * World L;
  (** [cli.Initialize(cliflags.NewClientOptions())] *)
  Initialize : DockerCli -> World L -> option error * World L;
  (** [registry.ParseRepositoryInfo] *)
  ParseRepositoryInfo : Named L -> result RepositoryInfo;
  (** [command.ResolveAuthConfig(ctx, cli, index)] *)
  ResolveAuthConfig : DockerCli -> IndexInfo -> World L -> AuthConfig * World L;
  (** [command.EncodeAuthToBase64] *)
  EncodeAuthToBase64 : AuthConfig -> result string;
  (** [cli.Client().ImagePush(ctx, image, options)] *)
  ImagePush :
    DockerCli -> string -> ImagePushOptions -> World L ->
    result ReadCloser * World L;
  (** [term.GetFdInfo(r.Out)] *)
  GetFdInfo : N * bool;
  (** [jsonmessage.DisplayJSONMessagesStream(in, r.Out, termFd, isTerm,
      nil)]: what it writes to [Out], and its error *)
  DisplayJSONMessagesStream :
    ReadCloser -> N -> bool -> World L -> (string * option error) * World L;
  (** the [Close()] method of the push response *)
  Close : ReadCloser -> World L -> World L;
  (** [cli.Client().DistributionInspect(ctx, image, encodedAuth)]: the
      [Descriptor.Digest] of what it returns *)
  DistributionInspect :
    DockerCli -> string -> string -> World L -> result string * World L
}.

Arguments DockerCli {L} _.
Arguments RepositoryInfo {L} _.
Arguments IndexInfo {L} _.
Arguments Index {L} _ _.
Arguments AuthConfig {L} _.
Arguments ReadCloser {L} _.
Arguments NewDockerCli {L} _ _.
Arguments Initialize {L} _ _ _.
Arguments ParseRepositoryInfo {L} _ _.
Arguments ResolveAuthConfig {L} _ _ _ _.
Arguments EncodeAuthToBase64 {L} _ _.
Arguments ImagePush {L} _ _ _ _ _.
Arguments GetFdInfo {L} _.
Arguments DisplayJSONMessagesStream {L} _ _ _ _ _.
Arguments Close {L} _ _ _.
Arguments DistributionInspect {L} _ _ _ _ _.

Section InvocationImage.
Context (L : Library) (D : Docker L).

(** What pushing an invocation image does, in order. *)
Inductive DockerEvent : Type :=
| Printed (line : string)
| CalledNewDockerCli (res : result (DockerCli D))
| CalledInitialize (cli : DockerCli D) (res : option error)
| CalledResolveAuthConfig (cli : DockerCli D) (index : IndexInfo D)
| CalledImagePush (cli : DockerCli D) (image : string)
    (options : ImagePushOptions) (res : result (ReadCloser D))
| CalledDisplayJSONMessagesStream (response : ReadCloser D) (termFd : N)
    (isTerm : bool) (written : string) (res : option error)
| CalledClose (response : ReadCloser D)
| CalledDistributionInspect (cli : DockerCli D) (image : string)
    (encodedAuth : string) (res : result string).

(** A computation leaves a value, a world and a log. *)
Definition DM (A : Type) : Type :=
  World L -> A * World L * list DockerEvent.

Definition dret {A} (a : A) : DM A := fun w => (a, w, []).

Definition dbind {A B} (c : DM A) (k : A -> DM B) : DM B :=
  fun w =>
    let '(a, w1, log1) := c w in
    let '(b, w2, log2) := k a w1 in
    (b, w2, log1 ++ log2).

(** A call of the Docker libraries, recorded with its result. *)
Definition dcall {A} (e : A -> DockerEvent) (f : World L -> A * World L)
  : DM A :=
  fun w => let '(a, w') := f w in (a, w', [e a]).

Definition dprint (line : string) : DM unit :=
  fun w => (tt, w, [Printed line]).

(** [defer cleanup()] around the rest of a function that does not panic:
    the cleanup runs once the value to return is known. *)
Definition defer {A} (cleanup : DM unit) (body : DM A) : DM A :=
  dbind body (fun a => dbind cleanup (fun _ => dret a)).

Notation "x <- c ;; k" := (dbind c (fun x => k))
  (at level 100, c at next level, right associativity).
Notation "c ;; k" := (dbind c (fun _ => k))
  (at level 100, right associativity).

(** [getDockerClient] *)
Definition getDockerClient : DM (result (DockerCli D)) :=
  made <- dcall CalledNewDockerCli (NewDockerCli D) ;;
  match made with
  | Err err => dret (Err (Wrap err "could not create new docker client"))
  | Ok cli =>
      failed <- dcall (CalledInitialize cli) (Initialize D cli) ;;
      match failed with
      | Some err => dret (Err err)
      | None => dret (Ok cli)
      end
  end.

(** [PushInvocationImage] pushes the invocation image from the Docker image
    cache to the specified location; the expected format of the
    invocationImage is REGISTRY/NAME:TAG.  Returns the image digest from
    the registry. *)
Definition PushInvocationImage (invocationImage : string)
  : DM (string * option error) :=
  client <- getDockerClient ;;
  match client with
  | Err err => dret (EmptyString, Some err)
  | Ok cli =>
      match ParseOCIReference L invocationImage with
      | Err err => dret (EmptyString, Some err)
      | Ok ref =>
          (* Resolve the Repository name from fqn to RepositoryInfo *)
          match ParseRepositoryInfo D ref with
          | Err err => dret (EmptyString, Some err)
          | Ok repoInfo =>
              authConfig <-
                dcall (fun _ => CalledResolveAuthConfig cli (Index D repoInfo))
                  (ResolveAuthConfig D cli (Index D repoInfo)) ;;
              match EncodeAuthToBase64 D authConfig with
              | Err err => dret (EmptyString, Some err)
              | Ok encodedAuth =>
                  let options :=
                    {| All := true; RegistryAuth := encodedAuth |} in
                  dprint ("Pushing CNAB invocation image..." +:+ newline) ;;
                  pushed <-
                    dcall (CalledImagePush cli invocationImage options)
                      (ImagePush D cli invocationImage options) ;;
                  match pushed with
                  | Err err =>
                      dret (EmptyString, Some (Wrap err "docker push failed"))
                  | Ok pushResponse =>
                      defer
                        (fun w => (tt, Close D pushResponse w,
                                   [CalledClose pushResponse]))
                        (let termFd := fst (GetFdInfo D) in
                         (* Setting this to false here because Moby
                            os.Exit(1) all over the place and this fails on
                            WSL (only) when Term is true. *)
                         let isTerm := false in
                         streamed <-
                           dcall
                             (fun res =>
                                CalledDisplayJSONMessagesStream pushResponse
                                  termFd isTerm (fst res) (snd res))
                             (DisplayJSONMessagesStream D pushResponse termFd
                                isTerm) ;;
                         match snd streamed with
                         | Some err =>
                             if String.prefix "denied" (Error err) then
                               dret (EmptyString,
                                     Some (Wrap err "docker push authentication failed"))
                             else
                               dret (EmptyString,
                                     Some (Wrap err "failed to stream docker push stdout"))
                         | None =>
                             dist <-
                               dcall
                                 (CalledDistributionInspect cli
                                    invocationImage encodedAuth)
                                 (DistributionInspect D cli invocationImage
                                    encodedAuth) ;;
                             match dist with
                             | Err err =>
                                 dret (EmptyString,
                                       Some (Wrap err "unable to inspect docker image"))
                             | Ok digest => dret (digest, None)
                             end
                         end)
                  end
              end
          end
      end
  end.

(** *** Reading the log of a push of an invocation image *)

(** The value and the log a computation leaves. *)
Definition returned {A} (x : A * World L * list DockerEvent) : A :=
  fst (fst x).

Definition logged {A} (x : A * World L * list DockerEvent)
  : list DockerEvent :=
  snd x.

(** The responses that [ImagePush] opened. *)
Definition opened (log : list DockerEvent) : list (ReadCloser D) :=
  omap (fun e => match e with
                 | CalledImagePush _ _ _ (Ok response) => Some response
                 | _ => None
                 end) log.

(** The responses that were closed. *)
Definition closed (log : list DockerEvent) : list (ReadCloser D) :=
  omap (fun e => match e with
                 | CalledClose response => Some response
                 | _ => None
                 end) log.

(** Does the event reach the registry (push, stream or inspect)? *)
Definition reachesRegistry (e : DockerEvent) : bool :=
  match e with
  | CalledImagePush _ _ _ _
  | CalledDisplayJSONMessagesStream _ _ _ _ _
  | CalledDistributionInspect _ _ _ _ => true
  | _ => false
  end.

(** Is the event an inspection of the pushed image? *)
Definition isInspect (e : DockerEvent) : bool :=
  match e with
  | CalledDistributionInspect _ _ _ _ => true
  | _ => false
  end.

End InvocationImage.

Arguments Printed {L D} line.
Arguments CalledNewDockerCli {L D} res.
Arguments CalledInitialize {L D} cli res.
Arguments CalledResolveAuthConfig {L D} cli index.
Arguments CalledImagePush {L D} cli image options res.
Arguments CalledDisplayJSONMessagesStream {L D} response termFd isTerm
  written res.
Arguments CalledClose {L D} response.
Arguments CalledDistributionInspect {L D} cli image encodedAuth res.
Arguments returned {L D A} x.
Arguments logged {L D A} x.
Arguments opened {L D} log.
Arguments closed {L D} log.
Arguments reachesRegistry {L D} e.
Arguments isInspect {L D} e.

(** ** A Docker client in memory

    On top of [Toy.lib]: a client cannot be made in a world that holds an
    entry [docker:noconfig] and cannot be initialized in a world that holds
    an entry [docker:nodaemon]; an image under [down.example] cannot be
    pushed; a push to [readonly.example] is denied in the stream of the
    response, the stream of a push to [flaky.example] breaks off, and an
    image under [ghost.example] cannot be inspected. *)
Module ToyDocker.

Definition docker : Docker Toy.lib := {|
  DockerCli := unit;
  RepositoryInfo := string;
  IndexInfo := string;
  Index := fun repoInfo => Toy.before_slash repoInfo;
  AuthConfig := string;
  ReadCloser := string;
  NewDockerCli := fun w =>
    match w !! "docker:noconfig" with
    | Some _ => (Err (errorString "no docker configuration"), w)
    | None => (Ok tt, w)
    end;
  Initialize := fun _ w =>
    match w !! "docker:nodaemon" with
    | Some _ =>
        (Some (errorString "cannot connect to the docker daemon"), w)
    | None => (None, w)
    end;
  ParseRepositoryInfo := fun ref : Named Toy.lib => Ok (ref : string);
  ResolveAuthConfig := fun _ index w => ("user@" +:+ index, w);
  EncodeAuthToBase64 := fun authConfig => Ok ("b64:" +:+ authConfig);
  ImagePush := fun _ image _ w =>
    if String.eqb (Toy.before_slash image) "down.example"
    then (Err (foreign "*net.OpError" "connection refused"), w)
    else (Ok image, w);
  GetFdInfo := (1%N, false);
  DisplayJSONMessagesStream := fun response _ _ w =>
    if String.eqb (Toy.before_slash response) "readonly.example"
    then (EmptyString,
          Some (errorString "denied: requested access to the resource is denied"),
          w)
    else if String.eqb (Toy.before_slash response) "flaky.example"
    then (EmptyString, Some (errorString "unexpected EOF"), w)
    else ("pushed " +:+ response, None, w);
  Close := fun _ w => w;
  DistributionInspect := fun _ image _ w =>
    if String.eqb (Toy.before_slash image) "ghost.example"
    then (Err (foreign "*errdefs.errNotFound" "manifest unknown"), w)
    else (Ok ("sha256:" +:+ image), w)
|}.

End ToyDocker.

(** ** Properties *)

Section Properties.
Context (L : Library) (r : Context).

Ltac run :=
  unfold PushBundle, PullBundle, ParseOCIReference, fixupBundle,
    createResolver, loadDefaultConfigFile, resolverAt, bind, call, emit,
    ret, panic in *.

Lemma PullBundle_unparsed tag ins w err :
  ParseNormalizedNamed L tag = Err err ->
  PullBundle L r tag ins w =
  Returned (zeroBundle L, nil_ptr,
            Some (Wrap err "invalid bundle tag format, expected REGISTRY/name:tag"))
    w [].
Proof. intros Hparse. run. now rewrite Hparse. Qed.

Lemma PullBundle_parsed tag ins w ref :
  ParseNormalizedNamed L tag = Ok ref ->
  PullBundle L r tag ins w =
  match Pull L ref (resolverAt L w ins ref) w with
  | (Err err, w1) =>
      Returned (zeroBundle L, nil_ptr,
                Some (Wrap err "unable to pull remote bundle")) w1
        (pullLog L r ins ref w)
  | (Ok (nil_ptr, _), w1) =>
      Panicked "runtime error: invalid memory address or nil pointer dereference" w1
        (pullLog L r ins ref w)
  | (Ok (addr_of bun, reloMap), w1) =>
      match InvocationImages bun with
      | [] =>
          Panicked "runtime error: index out of range [0] with length 0" w1
            (pullLog L r ins ref w)
      | invocationImage :: _ =>
          Returned
            (if String.eqb (Digest invocationImage) EmptyString
             then (zeroBundle L, nil_ptr,
                   Some (NewErrNoContentDigest (Image invocationImage)))
             else if Nat.eqb (len reloMap) 0 then (bun, nil_ptr, None)
             else (bun, addr_of reloMap, None))
            w1 (pullLog L r ins ref w)
      end
  end.
Proof.
  intros Hparse. unfold pullLog. run. rewrite Hparse.
  destruct (Debug r); cbn beta iota.
  all: destruct (LoadDefaultConfigFile L w) as [cfg written]; simpl.
  all: destruct (Pull L ref _ w) as [[[[|bun] reloMap]|err] w1];
    [reflexivity| |reflexivity].
  all: destruct (InvocationImages bun) as [|invocationImage others];
    [reflexivity|].
  all: destruct (String.eqb (Digest invocationImage) EmptyString);
    [reflexivity|].
  all: now destruct (Nat.eqb (len reloMap) 0).
Qed.

Lemma displayEvent_returns ev w :
  displayEvent L ev w = Returned tt w (displayed1 L ev).
Proof.
  unfold displayEvent, displayed1.
  destruct (EventType ev); [reflexivity| |reflexivity].
  now destruct (EventError ev).
Qed.

Lemma displayEvents_returns evs w :
  displayEvents L evs w = Returned tt w (displayed L evs).
Proof.
  induction evs as [|ev evs IH]; [reflexivity|].
  cbn [displayEvents]. unfold bind.
  now rewrite displayEvent_returns, IH.
Qed.

Lemma displayed_no_push evs :
  forallb (fun e => negb (isPush e)) (displayed L evs) = true.
Proof.
  induction evs as [|ev evs IH]; [reflexivity|].
  unfold displayed in *. cbn [mbind list_bind]. rewrite forallb_app, IH.
  unfold displayed1.
  destruct (EventType ev); [reflexivity| |reflexivity].
  now destruct (EventError ev).
Qed.

Lemma PushBundle_unparsed bun tag reloMap ins w err :
  ParseNormalizedNamed L tag = Err err ->
  PushBundle L bun tag reloMap ins w =
  Returned (nil_ptr,
            Some (Wrap err "invalid bundle tag reference. expected value is REGISTRY/bundle:tag"))
    w [].
Proof. intros Hparse. run. now rewrite Hparse. Qed.

Lemma PushBundle_parsed bun tag reloMap ins w ref :
  ParseNormalizedNamed L tag = Ok ref ->
  PushBundle L bun tag reloMap ins w =
  let resolver := resolverAt L w ins ref in
  match FixupBundle L bun ref resolver (initialised reloMap) w with
  | (_, _, Err err, w1) =>
      Returned (nil_ptr,
                Some (Wrap err "error preparing the bundle with cnab-to-oci before pushing"))
        w1 (fixupLog L bun reloMap ins ref w)
  | (_, fixed, Ok rm, w1) =>
      match Push L fixed rm ref resolver w1 with
      | (Err err, w2) =>
          Returned (nil_ptr,
                    Some (Wrap err ("error pushing the bundle to " +:+ tag)))
            w2
            (fixupLog L bun reloMap ins ref w ++
             [CallPush fixed rm ref resolver])
      | (Ok d, w2) =>
          Returned (if Nat.eqb (len rm) 0 then nil_ptr else addr_of rm,
                    None)
            w2
            (fixupLog L bun reloMap ins ref w ++
             [CallPush fixed rm ref resolver; WriteOut (pushedLine L ref d)])
      end
  end.
Proof.
  intros Hparse. unfold fixupLog, pushedLine, initialised. run.
  rewrite Hparse. cbn beta iota.
  destruct (LoadDefaultConfigFile L w) as [cfg written]; simpl.
  destruct (FixupBundle L bun ref _ _ w) as [[[evs fixed] [rm|err]] w1];
    simpl; rewrite displayEvents_returns; simpl.
  2: now rewrite !app_nil_r.
  destruct (Push L fixed rm ref _ w1) as [[d|err] w2]; simpl.
  2: now rewrite !app_nil_r.
  destruct (Nat.eqb (len rm) 0); simpl.
  all: now rewrite !app_nil_r.
Qed.

Lemma allowlists_app (l1 l2 : list (Event L)) :
  allowlists (l1 ++ l2) = allowlists l1 ++ allowlists l2.
Proof. apply omap_app. Qed.

Lemma fixupMaps_app (l1 l2 : list (Event L)) :
  fixupMaps (l1 ++ l2) = fixupMaps l1 ++ fixupMaps l2.
Proof. apply omap_app. Qed.

Lemma displayed_writes evs :
  allowlists (displayed L evs) = [] /\ fixupMaps (displayed L evs) = [].
Proof.
  induction evs as [|ev evs [IH1 IH2]]; [now split|].
  unfold displayed in *. cbn [mbind list_bind].
  rewrite allowlists_app, fixupMaps_app, IH1, IH2.
  unfold displayed1.
  destruct (EventType ev); [now split| |now split].
  now destruct (EventError ev).
Qed.

Lemma allowlists_pullLog ins ref w :
  allowlists (pullLog L r ins ref w) = [insecureRegistriesOf L ins ref].
Proof. unfold pullLog. now destruct (Debug r). Qed.

Lemma allowlists_fixupLog bun reloMap ins ref w :
  allowlists (fixupLog L bun reloMap ins ref w) =
  [insecureRegistriesOf L ins ref].
Proof.
  unfold fixupLog. cbn zeta. rewrite allowlists_app.
  now rewrite (proj1 (displayed_writes _)).
Qed.

Lemma fixupMaps_fixupLog bun reloMap ins ref w :
  fixupMaps (fixupLog L bun reloMap ins ref w) = [initialised reloMap].
Proof.
  unfold fixupLog. cbn zeta. rewrite fixupMaps_app.
  now rewrite (proj2 (displayed_writes _)).
Qed.

Lemma fixupLog_no_push bun reloMap ins ref w :
  forallb (fun e => negb (isPush e)) (fixupLog L bun reloMap ins ref w)
  = true.
Proof.
  unfold fixupLog. cbn zeta. rewrite forallb_app, displayed_no_push.
  reflexivity.
Qed.

(** C1: when the bundle that was retrieved has an invocation image with an
    empty digest, [PullBundle] returns the error of
    [NewErrNoContentDigest] for that image, with the zero bundle and no
    relocation map, whatever else the bundle and the relocation map hold.
    The type [ErrNoContentDigest] does not set that error apart: the
    wrapped error of every generic failure of a pull (a reference that does
    not parse, a transport error) passes the type assertion to
    [ErrNoContentDigest] just as it does. *)
Theorem PullBundle_missing_content_digest
    tag ins w ref bun reloMap w1 invocationImage others :
  ParseNormalizedNamed L tag = Ok ref ->
  Pull L ref (resolverAt L w ins ref) w = (Ok (addr_of bun, reloMap), w1) ->
  InvocationImages bun = invocationImage :: others ->
  Digest invocationImage = EmptyString ->
  PullBundle L r tag ins w =
  Returned (zeroBundle L, nil_ptr,
            Some (NewErrNoContentDigest (Image invocationImage)))
    w1 (pullLog L r ins ref w)
  /\ isErrNoContentDigest (pullError (PullBundle L r tag ins w)) = true
  /\ forall tag' ins' w',
       genericPullFailure L tag' ins' w' ->
       exists cause message,
         pullError (PullBundle L r tag' ins' w') =
         Some (Wrap cause message)
         /\ isErrNoContentDigest (pullError (PullBundle L r tag' ins' w'))
            = true.
Proof.
  intros Hparse Hpull Himages Hdigest.
  assert (PullBundle L r tag ins w =
          Returned (zeroBundle L, nil_ptr,
                    Some (NewErrNoContentDigest (Image invocationImage)))
            w1 (pullLog L r ins ref w)) as Hrun.
  { rewrite (PullBundle_parsed _ _ _ _ Hparse), Hpull, Himages, Hdigest.
    reflexivity. }
  split; [exact Hrun|]. split; [now rewrite Hrun|].
  intros tag' ins' w'. unfold genericPullFailure.
  destruct (ParseNormalizedNamed L tag') as [ref'|err] eqn:Hparse'.
  - rewrite (PullBundle_parsed _ _ _ _ Hparse').
    destruct (Pull L ref' _ w') as [[?|err] w2]; [intros []|intros _].
    now exists err, "unable to pull remote bundle".
  - intros _. rewrite (PullBundle_unparsed _ _ _ _ Hparse').
    now exists err,
      "invalid bundle tag format, expected REGISTRY/name:tag".
Qed.

(** C2, as the code has it: a push that succeeds returns the pair of the
    relocation map and a nil error, and the digest of the published
    manifest is in the last line it writes to [Out]. *)
Theorem PushBundle_writes_digest
    bun tag reloMap ins w ref evs fixed rm w1 d w2 :
  ParseNormalizedNamed L tag = Ok ref ->
  FixupBundle L bun ref (resolverAt L w ins ref) (initialised reloMap) w =
    (evs, fixed, Ok rm, w1) ->
  Push L fixed rm ref (resolverAt L w ins ref) w1 = (Ok d, w2) ->
  exists p log,
    PushBundle L bun tag reloMap ins w =
    Returned (p, None) w2
      (log ++
       [WriteOut
          ("Bundle tag " +:+ String_ L ref +:+
           " pushed successfully, with digest " +:+ Quote L d +:+
           newline)]).
Proof.
  intros Hparse Hfixup Hpush.
  rewrite (PushBundle_parsed _ _ _ _ _ _ Hparse). cbn zeta.
  rewrite Hfixup, Hpush.
  exists (if Nat.eqb (len rm) 0 then nil_ptr else addr_of rm),
    (fixupLog L bun reloMap ins ref w ++
     [CallPush fixed rm ref (resolverAt L w ins ref)]).
  now rewrite <- app_assoc.
Qed.

(** C3: a pull and a push that succeed return a nil pointer when the
    relocation map they end with has no entry, and the address of that map
    when it has one; a map that is returned is never empty. *)
Theorem relocation_map_absent_when_empty :
  (forall tag ins w ref bun reloMap w1 invocationImage others,
     ParseNormalizedNamed L tag = Ok ref ->
     Pull L ref (resolverAt L w ins ref) w =
       (Ok (addr_of bun, reloMap), w1) ->
     InvocationImages bun = invocationImage :: others ->
     Digest invocationImage <> EmptyString ->
     exists p log,
       PullBundle L r tag ins w = Returned (bun, p, None) w1 log
       /\ (len reloMap = 0 -> p = nil_ptr)
       /\ (0 < len reloMap -> p = addr_of reloMap)
       /\ (forall m, p = addr_of m -> 0 < len m))
  /\ (forall bun tag reloMap ins w ref evs fixed rm w1 d w2,
       ParseNormalizedNamed L tag = Ok ref ->
       FixupBundle L bun ref (resolverAt L w ins ref)
         (initialised reloMap) w = (evs, fixed, Ok rm, w1) ->
       Push L fixed rm ref (resolverAt L w ins ref) w1 = (Ok d, w2) ->
       exists p log,
         PushBundle L bun tag reloMap ins w = Returned (p, None) w2 log
         /\ (len rm = 0 -> p = nil_ptr)
         /\ (0 < len rm -> p = addr_of rm)
         /\ (forall m, p = addr_of m -> 0 < len m)).
Proof.
  split.
  - intros tag ins w ref bun reloMap w1 invocationImage others
      Hparse Hpull Himages Hdigest.
    rewrite (PullBundle_parsed _ _ _ _ Hparse), Hpull, Himages.
    apply String.eqb_neq in Hdigest. rewrite Hdigest.
    destruct (Nat.eqb (len reloMap) 0) eqn:Hlen.
    + apply Nat.eqb_eq in Hlen. do 2 eexists.
      split; [reflexivity|]. repeat split; [lia|discriminate].
    + apply Nat.eqb_neq in Hlen. do 2 eexists.
      split; [reflexivity|]. repeat split; [lia|].
      intros m [= <-]. lia.
  - intros bun tag reloMap ins w ref evs fixed rm w1 d w2
      Hparse Hfixup Hpush.
    rewrite (PushBundle_parsed _ _ _ _ _ _ Hparse). cbn zeta.
    rewrite Hfixup, Hpush.
    destruct (Nat.eqb (len rm) 0) eqn:Hlen.
    + apply Nat.eqb_eq in Hlen. do 2 eexists.
      split; [reflexivity|]. repeat split; [lia|discriminate].
    + apply Nat.eqb_neq in Hlen. do 2 eexists.
      split; [reflexivity|]. repeat split; [lia|].
      intros m [= <-]. lia.
Qed.

(** C4: when the fixup fails, a push returns its error wrapped with the
    fixup context, leaves the world as the fixup left it and never calls
    [remotes.Push]; when the fixup succeeds and [remotes.Push] fails, the
    error returned is wrapped with a message that ends with the
    destination reference as it was given. *)
Theorem PushBundle_failure_policy bun tag reloMap ins w ref :
  ParseNormalizedNamed L tag = Ok ref ->
  (forall evs fixed err w1,
     FixupBundle L bun ref (resolverAt L w ins ref) (initialised reloMap)
       w = (evs, fixed, Err err, w1) ->
     exists log,
       PushBundle L bun tag reloMap ins w =
       Returned
         (nil_ptr,
          Some (Wrap err "error preparing the bundle with cnab-to-oci before pushing"))
         w1 log
       /\ forallb (fun e => negb (isPush e)) log = true)
  /\ (forall evs fixed rm w1 err w2,
       FixupBundle L bun ref (resolverAt L w ins ref) (initialised reloMap)
         w = (evs, fixed, Ok rm, w1) ->
       Push L fixed rm ref (resolverAt L w ins ref) w1 = (Err err, w2) ->
       exists log wrapped,
         PushBundle L bun tag reloMap ins w =
         Returned (nil_ptr, Some wrapped) w2 log
         /\ wrapped = Wrap err ("error pushing the bundle to " +:+ tag)
         /\ Error wrapped =
            ("error pushing the bundle to " +:+ tag) +:+ ": " +:+
            Error err).
Proof.
  intros Hparse. split.
  - intros evs fixed err w1 Hfixup.
    rewrite (PushBundle_parsed _ _ _ _ _ _ Hparse). cbn zeta.
    rewrite Hfixup. eexists. split; [reflexivity|].
    apply fixupLog_no_push.
  - intros evs fixed rm w1 err w2 Hfixup Hpush.
    rewrite (PushBundle_parsed _ _ _ _ _ _ Hparse). cbn zeta.
    rewrite Hfixup, Hpush. do 2 eexists. now split.
Qed.

Lemma resolvers_app (l1 l2 : list (Event L)) :
  resolvers (l1 ++ l2) = resolvers l1 ++ resolvers l2.
Proof. apply omap_app. Qed.

Lemma resolvers_displayed evs : resolvers (displayed L evs) = [].
Proof.
  induction evs as [|ev evs IH]; [reflexivity|].
  unfold displayed in *. cbn [mbind list_bind].
  rewrite resolvers_app, IH. unfold displayed1.
  destruct (EventType ev); [reflexivity| |reflexivity].
  now destruct (EventError ev).
Qed.

Lemma resolvers_pullLog ins ref w :
  resolvers (pullLog L r ins ref w) = [resolverAt L w ins ref].
Proof. unfold pullLog. now destruct (Debug r). Qed.

Lemma resolvers_fixupLog bun reloMap ins ref w :
  resolvers (fixupLog L bun reloMap ins ref w) = [resolverAt L w ins ref].
Proof.
  unfold fixupLog. cbn zeta.
  now rewrite resolvers_app, resolvers_displayed.
Qed.

(** C5: in a pull and in a push alike, when the reference parses,
    [remotes.CreateResolver] is called once, with the list that holds the
    domain of the parsed reference and nothing else when the insecure flag
    is set, and the empty list when it is not; the resolver made from that
    list is the one every transport call of the operation is given, and
    the world the operation ends in is the one the transport leaves when
    run with it.  When the reference does not parse, no resolver is
    made. *)
Theorem allowlist_is_reference_domain bun tag reloMap (ins : bool) w :
  match ParseNormalizedNamed L tag with
  | Err _ =>
      allowlists (log_of (PullBundle L r tag ins w)) = []
      /\ allowlists (log_of (PushBundle L bun tag reloMap ins w)) = []
  | Ok ref =>
      let allowlist := if ins then [Domain L ref] else [] in
      let resolver :=
        CreateResolver L (fst (LoadDefaultConfigFile L w)) allowlist in
      (allowlists (log_of (PullBundle L r tag ins w)) = [allowlist]
       /\ resolvers (log_of (PullBundle L r tag ins w)) = [resolver]
       /\ world_of (PullBundle L r tag ins w) =
          snd (Pull L ref resolver w))
      /\ allowlists (log_of (PushBundle L bun tag reloMap ins w)) =
         [allowlist]
      /\ match FixupBundle L bun ref resolver (initialised reloMap) w with
         | (_, fixed, Ok rm, w1) =>
             resolvers (log_of (PushBundle L bun tag reloMap ins w)) =
             [resolver; resolver]
             /\ world_of (PushBundle L bun tag reloMap ins w) =
                snd (Push L fixed rm ref resolver w1)
         | (_, _, Err _, w1) =>
             resolvers (log_of (PushBundle L bun tag reloMap ins w)) =
             [resolver]
             /\ world_of (PushBundle L bun tag reloMap ins w) = w1
         end
  end.
Proof.
  destruct (ParseNormalizedNamed L tag) as [ref|err] eqn:Hparse.
  - cbn zeta.
    assert (CreateResolver L (fst (LoadDefaultConfigFile L w))
              (if ins then [Domain L ref] else []) =
            resolverAt L w ins ref) as ->
      by (unfold resolverAt, insecureRegistriesOf; now destruct ins).
    assert ((if ins then [Domain L ref] else []) =
            insecureRegistriesOf L ins ref) as ->
      by (unfold insecureRegistriesOf; now destruct ins).
    rewrite (PullBundle_parsed _ _ _ _ Hparse).
    rewrite (PushBundle_parsed _ _ _ _ _ _ Hparse). cbn zeta.
    split; [|split].
    + pose proof (allowlists_pullLog ins ref w) as Hallow.
      pose proof (resolvers_pullLog ins ref w) as Hres.
      destruct (Pull L ref _ w) as [[[[|b] reloMap']|err] w1];
        [now repeat split| |now repeat split].
      now destruct (InvocationImages b).
    + pose proof (allowlists_fixupLog bun reloMap ins ref w) as Hallow.
      destruct (FixupBundle L bun ref _ _ w) as [[[evs fixed] [rm|err]] w1];
        [|exact Hallow].
      destruct (Push L fixed rm ref _ w1) as [[d|err] w2]; cbn [log_of];
        now rewrite allowlists_app, Hallow.
    + pose proof (resolvers_fixupLog bun reloMap ins ref w) as Hres.
      destruct (FixupBundle L bun ref _ _ w) as [[[evs fixed] [rm|err]] w1];
        [|now split].
      destruct (Push L fixed rm ref _ w1) as [[d|err] w2];
        cbn [log_of world_of snd];
        now rewrite resolvers_app, Hres.
  - rewrite (PullBundle_unparsed _ _ _ _ Hparse).
    now rewrite (PushBundle_unparsed _ _ _ _ _ _ Hparse).
Qed.

Lemma fixupMaps_PushBundle bun tag reloMap ins w ref :
  ParseNormalizedNamed L tag = Ok ref ->
  fixupMaps (log_of (PushBundle L bun tag reloMap ins w)) =
  [initialised reloMap].
Proof.
  intros Hparse.
  rewrite (PushBundle_parsed _ _ _ _ _ _ Hparse). cbn zeta.
  destruct (FixupBundle L bun ref _ _ w) as [[[evs fixed] [rm|err]] w1];
    [|apply fixupMaps_fixupLog].
  destruct (Push L fixed rm ref _ w1) as [[d|err] w2]; cbn [log_of];
    now rewrite fixupMaps_app, fixupMaps_fixupLog.
Qed.

(** C6: the relocation map a push hands to [remotes.FixupBundle] is never
    the nil map; called with the nil map, a push whose reference parses
    calls the fixup once, with a map that was made and is empty. *)
Theorem fixup_map_is_initialised bun tag reloMap ins w :
  Forall (fun m => m <> nil_map)
    (fixupMaps (log_of (PushBundle L bun tag reloMap ins w)))
  /\ (forall ref,
       reloMap = nil_map ->
       ParseNormalizedNamed L tag = Ok ref ->
       fixupMaps (log_of (PushBundle L bun tag reloMap ins w)) =
       [make_map ∅]).
Proof.
  split.
  - destruct (ParseNormalizedNamed L tag) as [ref|err] eqn:Hparse.
    + rewrite (fixupMaps_PushBundle _ _ _ _ _ _ Hparse).
      constructor; [|constructor]. now destruct reloMap.
    + rewrite (PushBundle_unparsed _ _ _ _ _ _ Hparse). constructor.
  - intros ref -> Hparse.
    now rewrite (fixupMaps_PushBundle _ _ _ _ _ _ Hparse).
Qed.

(** C7: for a string that [reference.ParseNormalizedNamed] rejects, a pull
    and a push alike return the parse error wrapped as an invalid
    reference, with an empty log (no resolver was created and the
    transport was not called) and the world as it was. *)
Theorem invalid_reference_fails_immediately tag err :
  ParseNormalizedNamed L tag = Err err ->
  (forall ins w,
     PullBundle L r tag ins w =
     Returned
       (zeroBundle L, nil_ptr,
        Some (Wrap err "invalid bundle tag format, expected REGISTRY/name:tag"))
       w [])
  /\ (forall bun reloMap ins w,
       PushBundle L bun tag reloMap ins w =
       Returned
         (nil_ptr,
          Some (Wrap err "invalid bundle tag reference. expected value is REGISTRY/bundle:tag"))
         w []).
Proof.
  intros Hparse. split.
  - intros ins w. now apply PullBundle_unparsed.
  - intros bun reloMap ins w. now apply PushBundle_unparsed.
Qed.

(** C9: [PullBundle] indexes the invocation images of the bundle the
    transport returned without a check: on a bundle that was retrieved, it
    panics exactly when the bundle has no invocation image, with the
    index-out-of-range panic. *)
Theorem PullBundle_panics_iff_no_invocation_image
    tag ins w ref bun reloMap w1 :
  ParseNormalizedNamed L tag = Ok ref ->
  Pull L ref (resolverAt L w ins ref) w = (Ok (addr_of bun, reloMap), w1) ->
  ((exists reason w' log,
      PullBundle L r tag ins w = Panicked reason w' log) <->
   InvocationImages bun = [])
  /\ (InvocationImages bun = [] ->
      PullBundle L r tag ins w =
      Panicked "runtime error: index out of range [0] with length 0" w1
        (pullLog L r ins ref w)).
Proof.
  intros Hparse Hpull.
  rewrite (PullBundle_parsed _ _ _ _ Hparse), Hpull.
  destruct (InvocationImages bun) as [|invocationImage others].
  - split; [|reflexivity]. split; [reflexivity|]. intros _.
    now do 3 eexists.
  - split; [|discriminate]. split; [|discriminate].
    intros (reason & w' & log & Hpanic). discriminate Hpanic.
Qed.

(** C10: a push given the nil relocation map and a push given a map that
    was made and is empty have the same outcome (value returned, world and
    log); when the reference parses, each of them calls the fixup once,
    with the empty map, and ends in the world that the fixup run on the
    empty map, and the publication after it, leave. *)
Theorem PushBundle_nil_map_as_empty_map bun tag ins w :
  PushBundle L bun tag nil_map ins w =
  PushBundle L bun tag (make_map ∅) ins w
  /\ forall ref,
       ParseNormalizedNamed L tag = Ok ref ->
       fixupMaps (log_of (PushBundle L bun tag nil_map ins w)) =
       [make_map ∅]
       /\ fixupMaps (log_of (PushBundle L bun tag (make_map ∅) ins w)) =
          [make_map ∅]
       /\ world_of (PushBundle L bun tag nil_map ins w) =
          match FixupBundle L bun ref (resolverAt L w ins ref) (make_map ∅)
                  w with
          | (_, fixed, Ok rm, w1) =>
              snd (Push L fixed rm ref (resolverAt L w ins ref) w1)
          | (_, _, Err _, w1) => w1
          end.
Proof.
  assert (PushBundle L bun tag nil_map ins w =
          PushBundle L bun tag (make_map ∅) ins w) as Hsame.
  { unfold PushBundle.
    now destruct (ParseOCIReference L tag). }
  rewrite <- Hsame. split; [reflexivity|].
  intros ref Hparse.
  rewrite (fixupMaps_PushBundle _ _ _ _ _ _ Hparse).
  split; [reflexivity|]. split; [reflexivity|].
  rewrite (PushBundle_parsed _ _ _ _ _ _ Hparse). cbn zeta.
  cbn [initialised].
  destruct (FixupBundle L bun ref _ _ w) as [[[evs fixed] [rm|err]] w1];
    [|reflexivity].
  now destruct (Push L fixed rm ref _ w1) as [[d|err] w2].
Qed.

End Properties.

(** C1 on the registry in memory: the bundle under [reg.example/loose:v1]
    has an invocation image without a digest; nothing is stored under
    [reg.example/missing:v1], and the error of that failed pull is an
    [ErrNoContentDigest] too. *)
Lemma PullBundle_missing_content_digest_witness :
  PullBundle Toy.lib Toy.verbose "reg.example/loose:v1" true Toy.hub =
  Returned (L := Toy.lib)
    (zeroBundle Toy.lib, nil_ptr,
     Some (NewErrNoContentDigest "reg.example/img"))
    Toy.hub
    (pullLog Toy.lib Toy.verbose true "reg.example/loose:v1" Toy.hub)
  /\ pullError
       (PullBundle Toy.lib Toy.verbose "reg.example/missing:v1" false
          ToyWorlds.bare) =
     Some (Wrap (foreign "*errdefs.errNotFound" "not found")
             "unable to pull remote bundle")
  /\ isErrNoContentDigest
       (pullError
          (PullBundle Toy.lib Toy.verbose "reg.example/missing:v1" false
             ToyWorlds.bare)) = true.
Proof.
  destruct (PullBundle_missing_content_digest Toy.lib Toy.verbose
              "reg.example/loose:v1" true Toy.hub "reg.example/loose:v1"
              (Toy.bun [Toy.image "reg.example/img" EmptyString;
                        Toy.image "reg.example/aux" "sha256:bbb"])
              (make_map {["orig/img:1" := "reg.example/img"]}) Toy.hub
              (Toy.image "reg.example/img" EmptyString)
              [Toy.image "reg.example/aux" "sha256:bbb"])
    as (Hrun & _ & Hgeneric).
  - reflexivity.
  - vm_compute. reflexivity.
  - reflexivity.
  - reflexivity.
  - split; [exact Hrun|]. split; [reflexivity|].
    destruct (Hgeneric "reg.example/missing:v1" false ToyWorlds.bare I)
      as (cause & message & _ & Hasserted).
    exact Hasserted.
Defined.

(** C2 on the registry in memory: publishing a bundle under
    [reg.example/app:v2] ends with the line that carries the digest. *)
Lemma PushBundle_writes_digest_witness :
  exists p log,
    PushBundle Toy.lib (Toy.bun [Toy.image "orig/img:1" "sha256:aaa"])
      "reg.example/app:v2" nil_map true Toy.hub =
    Returned (L := Toy.lib) (p, None)
      (<["reg.example/app:v2" :=
           (addr_of (Toy.bun [Toy.image "orig/img:1" "sha256:aaa"]),
            make_map {["orig/img:1" := "reg.example/orig/img:1"]})]> Toy.hub)
      (log ++
       [WriteOut
          ("Bundle tag reg.example/app:v2 pushed successfully, with digest "
           +:+ Toy.quote "sha256:sha256:aaa" +:+ newline)]).
Proof.
  apply (PushBundle_writes_digest Toy.lib
           (Toy.bun [Toy.image "orig/img:1" "sha256:aaa"])
           "reg.example/app:v2" nil_map true Toy.hub "reg.example/app:v2"
           (Toy.copyEvents "orig/img:1" None)
           (Toy.bun [Toy.image "orig/img:1" "sha256:aaa"])
           (make_map {["orig/img:1" := "reg.example/orig/img:1"]})
           Toy.hub "sha256:sha256:aaa").
  - reflexivity.
  - vm_compute. reflexivity.
  - vm_compute. reflexivity.
Defined.

(** C2, as the specification has it, fails: two bundles that differ in the
    digest of their invocation image are published under different manifest
    digests, and the two pushes return the same value. *)
Lemma Push_returns_digest_counterexample : ~ Push_returns_digest.
Proof.
  intros [digest_of Hdigest].
  pose proof (Hdigest Toy.lib
                (Toy.bun [Toy.image "orig/img:1" "sha256:aaa"])
                "reg.example/app:v2" nil_map false Toy.hub
                "reg.example/app:v2" _ _ _ _ _ _ _ _ _
                eq_refl eq_refl eq_refl eq_refl) as Ha.
  pose proof (Hdigest Toy.lib
                (Toy.bun [Toy.image "orig/img:1" "sha256:bbb"])
                "reg.example/app:v2" nil_map false Toy.hub
                "reg.example/app:v2" _ _ _ _ _ _ _ _ _
                eq_refl eq_refl eq_refl eq_refl) as Hb.
  assert (Toy.manifestDigest (Toy.bun [Toy.image "orig/img:1" "sha256:aaa"])
          = Toy.manifestDigest
              (Toy.bun [Toy.image "orig/img:1" "sha256:bbb"])) as Hsame
    by (etransitivity; [symmetry; exact Ha|exact Hb]).
  discriminate Hsame.
Qed.

(** C3 on the registry in memory: a pull of a bundle stored with an empty
    map and a push of a bundle without images return no map; a pull of a
    bundle stored with one entry and a push that relocates an image return
    the map. *)
Lemma relocation_map_absent_when_empty_witness :
  (exists log,
     PullBundle Toy.lib Toy.quiet "reg.example/plain:v1" false Toy.hub =
     Returned (L := Toy.lib)
       (Toy.bun [Toy.image "reg.example/img" "sha256:aaa"], nil_ptr, None)
       Toy.hub log)
  /\ (exists log,
        PullBundle Toy.lib Toy.quiet "reg.example/app:v1" false Toy.hub =
        Returned (L := Toy.lib)
          (Toy.bun [Toy.image "reg.example/img" "sha256:aaa"],
           addr_of
             (make_map {["orig/img:1" := "reg.example/img@sha256:aaa"]}),
           None)
          Toy.hub log)
  /\ (exists w2 log,
        PushBundle Toy.lib (Toy.bun []) "reg.example/none:v1"
          (make_map ∅) false Toy.hub =
        Returned (L := Toy.lib) (nil_ptr, None) w2 log)
  /\ (exists w2 log,
        PushBundle Toy.lib (Toy.bun [Toy.image "orig/img:1" "sha256:aaa"])
          "reg.example/app:v2" nil_map false Toy.hub =
        Returned (L := Toy.lib)
          (addr_of (make_map {["orig/img:1" := "reg.example/orig/img:1"]}),
           None) w2 log).
Proof.
  pose proof (relocation_map_absent_when_empty Toy.lib Toy.quiet)
    as [Hpull Hpush].
  repeat split.
  - destruct (Hpull "reg.example/plain:v1" false Toy.hub
                "reg.example/plain:v1"
                (Toy.bun [Toy.image "reg.example/img" "sha256:aaa"])
                (make_map ∅) Toy.hub
                (Toy.image "reg.example/img" "sha256:aaa") [])
      as (p & log & Hrun & Hnil & _);
      [reflexivity|vm_compute; reflexivity|reflexivity|discriminate|].
    rewrite (Hnil eq_refl) in Hrun. now exists log.
  - destruct (Hpull "reg.example/app:v1" false Toy.hub
                "reg.example/app:v1"
                (Toy.bun [Toy.image "reg.example/img" "sha256:aaa"])
                (make_map {["orig/img:1" := "reg.example/img@sha256:aaa"]})
                Toy.hub
                (Toy.image "reg.example/img" "sha256:aaa") [])
      as (p & log & Hrun & _ & Hsome & _);
      [reflexivity|vm_compute; reflexivity|reflexivity|discriminate|].
    rewrite Hsome in Hrun by (vm_compute; lia). now exists log.
  - destruct (Hpush (Toy.bun []) "reg.example/none:v1" (make_map ∅) false
                Toy.hub "reg.example/none:v1" [] (Toy.bun []) (make_map ∅)
                Toy.hub "sha256:"
                (<["reg.example/none:v1" :=
                     (addr_of (Toy.bun []), make_map ∅)]> Toy.hub))
      as (p & log & Hrun & Hnil & _);
      [reflexivity|vm_compute; reflexivity|vm_compute; reflexivity|].
    rewrite (Hnil eq_refl) in Hrun. eauto.
  - destruct (Hpush (Toy.bun [Toy.image "orig/img:1" "sha256:aaa"])
                "reg.example/app:v2" nil_map false Toy.hub
                "reg.example/app:v2" (Toy.copyEvents "orig/img:1" None)
                (Toy.bun [Toy.image "orig/img:1" "sha256:aaa"])
                (make_map {["orig/img:1" := "reg.example/orig/img:1"]})
                Toy.hub "sha256:sha256:aaa"
                (<["reg.example/app:v2" :=
                     (addr_of (Toy.bun [Toy.image "orig/img:1" "sha256:aaa"]),
                      make_map
                        {["orig/img:1" := "reg.example/orig/img:1"]})]>
                   Toy.hub))
      as (p & log & Hrun & _ & Hsome & _);
      [reflexivity|vm_compute; reflexivity|vm_compute; reflexivity|].
    rewrite Hsome in Hrun by (vm_compute; lia). eauto.
Defined.

(** C4 on the registry in memory: an image without a name cannot be copied,
    and the push stops before publishing; nothing can be published to
    [readonly.example], and the error names the reference. *)
Lemma PushBundle_failure_policy_witness :
  (exists log,
     PushBundle Toy.lib (Toy.bun [Toy.image EmptyString "sha256:aaa"])
       "reg.example/app:v2" nil_map false Toy.hub =
     Returned (L := Toy.lib)
       (nil_ptr,
        Some (Wrap (errorString "copy failed")
                "error preparing the bundle with cnab-to-oci before pushing"))
       Toy.hub log
     /\ forallb (fun e => negb (isPush e)) log = true)
  /\ (exists log wrapped,
        PushBundle Toy.lib (Toy.bun [Toy.image "orig/img:1" "sha256:aaa"])
          "readonly.example/app:v2" nil_map false Toy.hub =
        Returned (L := Toy.lib) (nil_ptr, Some wrapped) Toy.hub log
        /\ Error wrapped =
           "error pushing the bundle to readonly.example/app:v2: denied").
Proof.
  split.
  - apply (proj1 (PushBundle_failure_policy Toy.lib
                    (Toy.bun [Toy.image EmptyString "sha256:aaa"])
                    "reg.example/app:v2" nil_map false Toy.hub
                    "reg.example/app:v2" eq_refl)
             (Toy.copyEvents EmptyString (Some (errorString "copy failed")))
             (Toy.bun [Toy.image EmptyString "sha256:aaa"])).
    vm_compute. reflexivity.
  - destruct (proj2 (PushBundle_failure_policy Toy.lib
                       (Toy.bun [Toy.image "orig/img:1" "sha256:aaa"])
                       "readonly.example/app:v2" nil_map false Toy.hub
                       "readonly.example/app:v2" eq_refl)
                (Toy.copyEvents "orig/img:1" None)
                (Toy.bun [Toy.image "orig/img:1" "sha256:aaa"])
                (make_map {["orig/img:1" := "readonly.example/orig/img:1"]})
                Toy.hub (foreign "*errdefs.errForbidden" "denied") Toy.hub)
      as (log & wrapped & Hrun & _ & Hmessage);
      [vm_compute; reflexivity|vm_compute; reflexivity|].
    now exists log, wrapped.
Defined.

(** C6 on the registry in memory: a push called with the nil map hands the
    fixup an empty map that was made. *)
Lemma fixup_map_is_initialised_witness :
  fixupMaps
    (log_of
       (PushBundle Toy.lib (Toy.bun [Toy.image "orig/img:1" "sha256:aaa"])
          "reg.example/app:v2" nil_map false Toy.hub)) =
  [make_map ∅].
Proof.
  apply (proj2 (fixup_map_is_initialised Toy.lib
                  (Toy.bun [Toy.image "orig/img:1" "sha256:aaa"])
                  "reg.example/app:v2" nil_map false Toy.hub)
           "reg.example/app:v2").
  - reflexivity.
  - reflexivity.
Defined.

(** C7 on the registry in memory: the empty string is not a reference. *)
Lemma invalid_reference_fails_immediately_witness :
  PullBundle Toy.lib Toy.verbose EmptyString true Toy.hub =
  Returned (L := Toy.lib)
    (zeroBundle Toy.lib, nil_ptr,
     Some (Wrap (errorString "invalid reference format")
             "invalid bundle tag format, expected REGISTRY/name:tag"))
    Toy.hub []
  /\ PushBundle Toy.lib (Toy.bun [Toy.image "orig/img:1" "sha256:aaa"])
       EmptyString nil_map true Toy.hub =
     Returned (L := Toy.lib)
       (nil_ptr,
        Some (Wrap (errorString "invalid reference format")
                "invalid bundle tag reference. expected value is REGISTRY/bundle:tag"))
       Toy.hub [].
Proof.
  destruct (invalid_reference_fails_immediately Toy.lib Toy.verbose
              EmptyString (errorString "invalid reference format") eq_refl)
    as [Hpull Hpush].
  split; [apply Hpull|apply Hpush].
Defined.

(** C9 on the registry in memory: the bundle under [reg.example/hollow:v1]
    has no invocation image. *)
Lemma PullBundle_panics_iff_no_invocation_image_witness :
  PullBundle Toy.lib Toy.quiet "reg.example/hollow:v1" false Toy.hub =
  Panicked (L := Toy.lib) "runtime error: index out of range [0] with length 0" Toy.hub
    (pullLog Toy.lib Toy.quiet false "reg.example/hollow:v1" Toy.hub).
Proof.
  apply (proj2 (PullBundle_panics_iff_no_invocation_image Toy.lib Toy.quiet
                  "reg.example/hollow:v1" false Toy.hub
                  "reg.example/hollow:v1" (Toy.bun []) nil_map Toy.hub
                  eq_refl ltac:(vm_compute; reflexivity))).
  reflexivity.
Defined.

(** C5 on the registry in memory, where a resolver is the list it was made
    from: an insecure pull of [reg.example/app:v1] reaches the transport
    with [reg.example] alone, a secure one with nothing. *)
Lemma allowlist_is_reference_domain_witness :
  resolvers
    (log_of (PullBundle Toy.lib Toy.quiet "reg.example/app:v1" true
               ToyWorlds.shelf)) = [["reg.example"]]
  /\ resolvers
       (log_of (PullBundle Toy.lib Toy.quiet "reg.example/app:v1" false
                  ToyWorlds.shelf)) = [[]].
Proof.
  assert (ParseNormalizedNamed Toy.lib "reg.example/app:v1" =
          Ok "reg.example/app:v1") as Hparse by reflexivity.
  split.
  - pose proof (allowlist_is_reference_domain Toy.lib Toy.quiet
                  (Toy.bun []) "reg.example/app:v1" nil_map true
                  ToyWorlds.shelf) as Hinsecure.
    rewrite Hparse in Hinsecure. cbv zeta in Hinsecure.
    destruct Hinsecure as ((_ & Hresolvers & _) & _). exact Hresolvers.
  - pose proof (allowlist_is_reference_domain Toy.lib Toy.quiet
                  (Toy.bun []) "reg.example/app:v1" nil_map false
                  ToyWorlds.shelf) as Hsecure.
    rewrite Hparse in Hsecure. cbv zeta in Hsecure.
    destruct Hsecure as ((_ & Hresolvers & _) & _). exact Hresolvers.
Defined.

(** C10 on the registry in memory: called with the nil map or with an
    empty map, a push under [reg.example/app:v2] hands the fixup the empty
    map. *)
Lemma PushBundle_nil_map_as_empty_map_witness :
  fixupMaps
    (log_of
       (PushBundle Toy.lib (Toy.bun [Toy.image "orig/img:1" "sha256:aaa"])
          "reg.example/app:v2" nil_map false ToyWorlds.bare)) =
  [make_map ∅]
  /\ fixupMaps
       (log_of
          (PushBundle Toy.lib
             (Toy.bun [Toy.image "orig/img:1" "sha256:aaa"])
             "reg.example/app:v2" (make_map ∅) false ToyWorlds.bare)) =
     [make_map ∅].
Proof.
  destruct (proj2 (PushBundle_nil_map_as_empty_map Toy.lib
                     (Toy.bun [Toy.image "orig/img:1" "sha256:aaa"])
                     "reg.example/app:v2" false ToyWorlds.bare)
              "reg.example/app:v2" eq_refl)
    as (Hnil & Hempty & _).
  now split.
Defined.

(** ** More properties of a pull and a push *)

Section Transfer.
Context (L : Library) (r : Context).

Lemma transportCalls_app (l1 l2 : list (Event L)) :
  transportCalls (l1 ++ l2) = transportCalls l1 ++ transportCalls l2.
Proof. apply omap_app. Qed.

Lemma transportCalls_displayed evs : transportCalls (displayed L evs) = [].
Proof.
  induction evs as [|ev evs IH]; [reflexivity|].
  unfold displayed in *. cbn [mbind list_bind].
  rewrite transportCalls_app, IH. unfold displayed1.
  destruct (EventType ev); [reflexivity| |reflexivity].
  now destruct (EventError ev).
Qed.

Lemma transportCalls_pullLog ins ref w :
  transportCalls (pullLog L r ins ref w) = [TransportPull].
Proof. unfold pullLog. now destruct (Debug r). Qed.

Lemma transportCalls_fixupLog bun reloMap ins ref w :
  transportCalls (fixupLog L bun reloMap ins ref w) = [TransportFixup].
Proof.
  unfold fixupLog. cbn zeta.
  now rewrite transportCalls_app, transportCalls_displayed.
Qed.

Lemma log_of_PullBundle tag ins w ref :
  ParseNormalizedNamed L tag = Ok ref ->
  log_of (PullBundle L r tag ins w) = pullLog L r ins ref w.
Proof.
  intros Hparse. rewrite (PullBundle_parsed _ _ _ _ _ _ Hparse).
  destruct (Pull L ref _ w) as [[[[|bun] reloMap]|err] w1];
    [reflexivity| |reflexivity].
  now destruct (InvocationImages bun).
Qed.

(** X1: [PullBundle] panics exactly when the reference parses and the
    transport returns, without an error, a nil bundle or a bundle that has
    no invocation image; in every other case it returns. *)
Theorem PullBundle_panics_exactly tag ins w :
  (exists reason w' log, PullBundle L r tag ins w = Panicked reason w' log)
  <->
  (exists ref,
     ParseNormalizedNamed L tag = Ok ref /\
     match fst (Pull L ref (resolverAt L w ins ref) w) with
     | Ok (nil_ptr, _) => True
     | Ok (addr_of bun, _) => InvocationImages bun = []
     | Err _ => False
     end).
Proof.
  destruct (ParseNormalizedNamed L tag) as [ref|err] eqn:Hparse.
  - rewrite (PullBundle_parsed _ _ _ _ _ _ Hparse).
    destruct (Pull L ref _ w) as [[[[|bun] reloMap]|err] w1] eqn:Hpull.
    + split; [intros _; exists ref; now rewrite Hpull|].
      intros _; now do 3 eexists.
    + destruct (InvocationImages bun) as [|invocationImage others]
        eqn:Himages.
      * split; [intros _; exists ref; now rewrite Hpull|].
        intros _; now do 3 eexists.
      * split; [intros (? & ? & ? & [=])|].
        intros (ref' & [= <-] & Hnone). rewrite Hpull in Hnone.
        cbn [fst] in Hnone. congruence.
    + split; [intros (? & ? & ? & [=])|].
      intros (ref' & [= <-] & Hnone). now rewrite Hpull in Hnone.
  - rewrite (PullBundle_unparsed _ _ _ _ _ _ Hparse).
    split; [intros (? & ? & ? & [=])|intros (? & [=] & _)].
Qed.

(** X2: what a pull returns is consistent: with an error come the zero
    bundle and no relocation map; without an error comes a bundle that has
    an invocation image, the first of which carries a digest. *)
Theorem PullBundle_result_invariant tag ins w bun p err w' log :
  PullBundle L r tag ins w = Returned (bun, p, err) w' log ->
  match err with
  | Some _ => bun = zeroBundle L /\ p = nil_ptr
  | None =>
      exists invocationImage others,
        InvocationImages bun = invocationImage :: others
        /\ Digest invocationImage <> EmptyString
  end.
Proof.
  destruct (ParseNormalizedNamed L tag) as [ref|e] eqn:Hparse.
  - rewrite (PullBundle_parsed _ _ _ _ _ _ Hparse).
    destruct (Pull L ref _ w) as [[[[|b] reloMap]|e] w1];
      [discriminate| |now intros [= <- <- <- <- <-]].
    destruct (InvocationImages b) as [|invocationImage others] eqn:Himages;
      [discriminate|].
    destruct (String.eqb (Digest invocationImage) EmptyString) eqn:Hdigest;
      [now intros [= <- <- <- <- <-]|].
    apply String.eqb_neq in Hdigest.
    destruct (Nat.eqb (len reloMap) 0); intros [= <- <- <- <- <-].
    all: now exists invocationImage, others.
  - rewrite (PullBundle_unparsed _ _ _ _ _ _ Hparse).
    now intros [= <- <- <- <- <-].
Qed.

(** X3: the [Debug] flag of the context changes nothing of a pull but what
    is written to [Err]: value returned or panic, world and the rest of the
    log are the same under any two contexts, and with [Debug] off nothing
    is written to [Err]. *)
Theorem PullBundle_debug_only_writes_Err (r' : Context) tag ins w :
  withoutErr (PullBundle L r tag ins w) =
  withoutErr (PullBundle L r' tag ins w)
  /\ (Debug r = false ->
      filter (fun e => isWriteErr e = true)
        (log_of (PullBundle L r tag ins w)) = []).
Proof.
  destruct (ParseNormalizedNamed L tag) as [ref|e] eqn:Hparse.
  - rewrite !(PullBundle_parsed _ _ _ _ _ _ Hparse). split.
    + assert (filter (fun e : Event L => isWriteErr e = false)
                (pullLog L r ins ref w) =
              filter (fun e : Event L => isWriteErr e = false)
                (pullLog L r' ins ref w)) as Hlog
        by (unfold pullLog; now destruct (Debug r), (Debug r')).
      destruct (Pull L ref _ w) as [[[[|b] reloMap]|e] w1]; cbn [withoutErr];
        [now rewrite Hlog| |now rewrite Hlog].
      destruct (InvocationImages b); cbn [withoutErr]; now rewrite Hlog.
    + intros Hquiet.
      assert (log_of (PullBundle L r tag ins w) = pullLog L r ins ref w)
        as Hlog by now apply log_of_PullBundle.
      rewrite (PullBundle_parsed _ _ _ _ _ _ Hparse) in Hlog. rewrite Hlog.
      unfold pullLog. now rewrite Hquiet.
  - now rewrite !(PullBundle_unparsed _ _ _ _ _ _ Hparse).
Qed.

(** X4: the transport is called in a fixed order.  A pull calls
    [remotes.Pull] once when the reference parses and nothing else; a push
    calls [remotes.FixupBundle] once when the reference parses, then
    [remotes.Push] once when the fixup succeeded, and nothing else. *)
Theorem transport_protocol bun tag reloMap ins w :
  transportCalls (log_of (PullBundle L r tag ins w)) =
  match ParseNormalizedNamed L tag with
  | Ok _ => [TransportPull]
  | Err _ => []
  end
  /\ transportCalls (log_of (PushBundle L bun tag reloMap ins w)) =
     match ParseNormalizedNamed L tag with
     | Ok ref =>
         match snd (fst (FixupBundle L bun ref (resolverAt L w ins ref)
                           (initialised reloMap) w)) with
         | Ok _ => [TransportFixup; TransportPush]
         | Err _ => [TransportFixup]
         end
     | Err _ => []
     end.
Proof.
  destruct (ParseNormalizedNamed L tag) as [ref|e] eqn:Hparse.
  - split.
    + rewrite (log_of_PullBundle _ _ _ _ Hparse).
      apply transportCalls_pullLog.
    + rewrite (PushBundle_parsed _ _ _ _ _ _ _ Hparse). cbn zeta.
      destruct (FixupBundle L bun ref _ _ w) as [[[evs fixed] [rm|e]] w1];
        cbn [fst snd]; [|apply transportCalls_fixupLog].
      destruct (Push L fixed rm ref _ w1) as [[d|e] w2]; cbn [log_of];
        now rewrite transportCalls_app, transportCalls_fixupLog.
  - rewrite (PullBundle_unparsed _ _ _ _ _ _ Hparse).
    now rewrite (PushBundle_unparsed _ _ _ _ _ _ _ Hparse).
Qed.

Lemma prefix_append (s t : string) : String.prefix s (s +:+ t) = true.
Proof.
  induction s as [|c s IH]; [now destruct t|].
  change (String.prefix (String c s) (String c (s +:+ t)) = true).
  cbn [String.prefix]. now destruct (Ascii.ascii_dec c c).
Qed.

Lemma writesBundleTag_app (l1 l2 : list (Event L)) :
  writesBundleTag (l1 ++ l2) = writesBundleTag l1 || writesBundleTag l2.
Proof. apply existsb_app. Qed.

Lemma writesBundleTag_displayed evs :
  writesBundleTag (displayed L evs) = false.
Proof.
  induction evs as [|ev evs IH]; [reflexivity|].
  unfold displayed in *. cbn [mbind list_bind].
  rewrite writesBundleTag_app, IH, orb_false_r. unfold displayed1.
  destruct (EventType ev); [reflexivity| |reflexivity].
  now destruct (EventError ev).
Qed.

Lemma writesBundleTag_fixupLog bun reloMap ins ref w :
  writesBundleTag (fixupLog L bun reloMap ins ref w) = false.
Proof.
  unfold fixupLog. cbn zeta.
  now rewrite writesBundleTag_app, writesBundleTag_displayed.
Qed.

(** X5: what a push publishes is what the fixup produced: when the fixup
    succeeds, [remotes.Push] is called once, in the world the fixup left,
    with the bundle as the fixup updated it, the relocation map the fixup
    returned, and the reference and resolver the fixup was given; the world
    the push ends in is the one [remotes.Push] left. *)
Theorem PushBundle_publishes_fixed_bundle
    bun tag reloMap ins w ref evs fixed rm w1 :
  ParseNormalizedNamed L tag = Ok ref ->
  FixupBundle L bun ref (resolverAt L w ins ref) (initialised reloMap) w =
    (evs, fixed, Ok rm, w1) ->
  exists v log,
    PushBundle L bun tag reloMap ins w =
    Returned v (snd (Push L fixed rm ref (resolverAt L w ins ref) w1)) log
    /\ filter (fun e => isPush e = true) log =
       [CallPush fixed rm ref (resolverAt L w ins ref)].
Proof.
  intros Hparse Hfixup.
  assert (filter (fun e : Event L => isPush e = true)
            (fixupLog L bun reloMap ins ref w) = []) as Hnone.
  { pose proof (fixupLog_no_push L bun reloMap ins ref w) as Hall.
    induction (fixupLog L bun reloMap ins ref w) as [|e l IH];
      [reflexivity|].
    cbn [forallb] in Hall. apply andb_prop in Hall as [He Hl].
    rewrite filter_cons. destruct (isPush e); [discriminate|].
    rewrite decide_False by discriminate. now apply IH. }
  rewrite (PushBundle_parsed _ _ _ _ _ _ _ Hparse). cbn zeta.
  rewrite Hfixup.
  destruct (Push L fixed rm ref _ w1) as [[d|e] w2]; cbn [snd];
    do 2 eexists; (split; [reflexivity|]).
  all: now rewrite filter_app, Hnone.
Qed.



End Transfer.



(** ** Properties of a push of the invocation image *)

Section InvocationImageProperties.
Context (L : Library) (D : Docker L).

Ltac step :=
  match goal with
  | |- context [NewDockerCli D ?w] =>
      destruct (NewDockerCli D w) as [[?cli|?err] ?w] eqn:?
  | |- context [Initialize D ?c ?w] =>
      destruct (Initialize D c w) as [[?err|] ?w] eqn:?
  | |- context [ParseNormalizedNamed L ?s] =>
      destruct (ParseNormalizedNamed L s) as [?ref|?err] eqn:?
  | |- context [ParseRepositoryInfo D ?x] =>
      destruct (ParseRepositoryInfo D x) as [?repoInfo|?err] eqn:?
  | |- context [ResolveAuthConfig D ?c ?i ?w] =>
      destruct (ResolveAuthConfig D c i w) as [?authConfig ?w] eqn:?
  | |- context [EncodeAuthToBase64 D ?a] =>
      destruct (EncodeAuthToBase64 D a) as [?encodedAuth|?err] eqn:?
  | |- context [ImagePush D ?c ?i ?o ?w] =>
      destruct (ImagePush D c i o w) as [[?pushResponse|?err] ?w] eqn:?
  | |- context [DisplayJSONMessagesStream D ?p ?f ?t ?w] =>
      destruct (DisplayJSONMessagesStream D p f t w)
        as [[?written [?err|]] ?w] eqn:?
  | |- context [String.prefix "denied" ?m] =>
      destruct (String.prefix "denied" m) eqn:?
  | |- context [DistributionInspect D ?c ?i ?a ?w] =>
      destruct (DistributionInspect D c i a w) as [[?digest|?err] ?w] eqn:?
  end.

Ltac walk :=
  unfold PushInvocationImage, getDockerClient, ParseOCIReference, defer,
    dbind, dcall, dprint, dret, returned, logged in *;
  cbn beta iota zeta;
  repeat (step; cbn -[String.prefix]).

(** X8: the response of [ImagePush] is closed once on every path: what a
    call closes is what it opened, it opens at most one response, and the
    close is the last thing it does. *)
Theorem PushInvocationImage_closes_response invocationImage w :
  let log := logged (PushInvocationImage L D invocationImage w) in
  closed log = opened log
  /\ length (opened log) <= 1
  /\ forall response,
       opened log = [response] -> last log = Some (CalledClose response).
Proof.
  walk.
  all: repeat split; try lia; try discriminate.
  all: now intros response [= <-].
Qed.

(** X9: a push of the invocation image returns the digest that
    [DistributionInspect] reported, and only that: with an error the digest
    returned is the empty string; without an error the image given was
    inspected and the digest returned is the one the inspection gave; and
    whenever an inspection succeeded, the call returns its digest and no
    error. *)
Theorem PushInvocationImage_digest invocationImage w :
  let run := PushInvocationImage L D invocationImage w in
  (snd (returned run) <> None -> fst (returned run) = EmptyString)
  /\ (snd (returned run) = None ->
      exists cli encodedAuth,
        In (CalledDistributionInspect cli invocationImage encodedAuth
              (Ok (fst (returned run))))
          (logged run))
  /\ (forall cli image encodedAuth digest,
        In (CalledDistributionInspect cli image encodedAuth (Ok digest))
          (logged run) ->
        returned run = (digest, None)).
Proof.
  walk.
  all: repeat split; try congruence; try discriminate.
  all: try (intros _; do 2 eexists; cbn; eauto 12; fail).
  all: intros ? ? ? ? Hin; cbn in Hin.
  all: repeat (destruct Hin as [Hin|Hin]; try discriminate Hin);
    try contradiction.
  all: now injection Hin as <- <- <- <-.
Qed.

(** X10: the image that is pushed and inspected is the string that was
    given, as it was given: every [ImagePush] of a call is for that string,
    with [All] set; an inspection is for the same string with the
    credentials the push was made with; and the stream that is displayed is
    the response of that push, never as a terminal. *)
Theorem PushInvocationImage_pushes_what_it_was_given
    invocationImage w cli image options res :
  let log := logged (PushInvocationImage L D invocationImage w) in
  In (CalledImagePush cli image options res) log ->
  image = invocationImage
  /\ All options = true
  /\ (forall cli' image' encodedAuth res',
        In (CalledDistributionInspect cli' image' encodedAuth res') log ->
        image' = invocationImage /\ encodedAuth = RegistryAuth options)
  /\ (forall response termFd isTerm written res',
        In (CalledDisplayJSONMessagesStream response termFd isTerm written
              res') log ->
        res = Ok response /\ isTerm = false /\ termFd = fst (GetFdInfo D)).
Proof.
  walk.
  all: intros Hpush; cbn in Hpush.
  all: repeat (destruct Hpush as [Hpush|Hpush]; try discriminate Hpush);
    try contradiction.
  all: injection Hpush as <- <- <- <-.
  all: repeat split; try reflexivity.
  all: intros; cbn in *.
  all: repeat match goal with
         | H : _ \/ _ |- _ => destruct H as [H|H]; try discriminate H
         | H : False |- _ => destruct H
         end.
  all: try match goal with
         | H : CalledDistributionInspect _ _ _ _ = _ |- _ =>
             injection H as <- <- <- <-
         | H : CalledDisplayJSONMessagesStream _ _ _ _ _ = _ |- _ =>
             injection H as <- <- <- <- <-
         end.
  all: try reflexivity.
Qed.


(** X12: when displaying the stream of the push response fails, the push of
    the invocation image returns the empty digest and that error wrapped:
    as an authentication failure if its message starts with [denied], as a
    failure to stream otherwise; the image is then not inspected. *)
Theorem PushInvocationImage_stream_error
    invocationImage w response termFd isTerm written err :
  let run := PushInvocationImage L D invocationImage w in
  In (CalledDisplayJSONMessagesStream response termFd isTerm written
        (Some err)) (logged run) ->
  returned run =
  (EmptyString,
   Some (Wrap err
           (if String.prefix "denied" (Error err)
            then "docker push authentication failed"
            else "failed to stream docker push stdout")))
  /\ existsb isInspect (logged run) = false.
Proof.
  walk.
  all: intros Hin; cbn in Hin.
  all: repeat (destruct Hin as [Hin|Hin]; try discriminate Hin);
    try contradiction.
  all: injection Hin as <- <- <- <- <-.
  all: first [now split|congruence].
Qed.

(** X13: without a Docker client nothing is attempted: if the client cannot
    be made, the call returns that error wrapped and has done nothing else;
    if the client cannot be initialized, the call returns that error as it
    is and has done nothing but make the client and try to initialize
    it. *)
Theorem PushInvocationImage_without_client invocationImage w :
  let run := PushInvocationImage L D invocationImage w in
  (forall err,
     In (CalledNewDockerCli (Err err)) (logged run) ->
     returned run =
     (EmptyString, Some (Wrap err "could not create new docker client"))
     /\ logged run = [CalledNewDockerCli (Err err)])
  /\ (forall cli err,
        In (CalledInitialize cli (Some err)) (logged run) ->
        returned run = (EmptyString, Some err)
        /\ logged run =
           [CalledNewDockerCli (Ok cli); CalledInitialize cli (Some err)]).
Proof.
  walk.
  all: split; intros; cbn in *.
  all: repeat match goal with
         | H : _ \/ _ |- _ => destruct H as [H|H]; try discriminate H
         | H : False |- _ => destruct H
         end.
  all: match goal with
       | H : CalledNewDockerCli _ = _ |- _ => injection H as <-
       | H : CalledInitialize _ _ = _ |- _ => injection H as <- <-
       end.
  all: now split.
Qed.


End InvocationImageProperties.









(** X14: a relocation map that is present, empty or not, is handed to the
    fixup as it is: a push whose reference parses calls
    [remotes.FixupBundle] once, with the map it was given. *)
Theorem PushBundle_hands_map_to_fixup
    (L : Library) bun tag (m : gmap string string) ins w ref :
  ParseNormalizedNamed L tag = Ok ref ->
  fixupMaps (log_of (PushBundle L bun tag (make_map m) ins w)) =
  [make_map m].
Proof.
  intros Hparse.
  now rewrite (fixupMaps_PushBundle L _ _ _ _ _ _ Hparse).
Qed.


Section InvocationImageFailures.
Context (L : Library) (D : Docker L).

(** X15: the two registry calls around the stream name themselves in the
    error: when [ImagePush] fails, the push of the invocation image returns
    its error wrapped as a failed docker push and has no response to close;
    when [DistributionInspect] fails, it returns that error wrapped as a
    failed inspection. *)
Theorem PushInvocationImage_registry_errors invocationImage w :
  let run := PushInvocationImage L D invocationImage w in
  (forall cli image options err,
     In (CalledImagePush cli image options (Err err)) (logged run) ->
     returned run = (EmptyString, Some (Wrap err "docker push failed"))
     /\ closed (logged run) = [])
  /\ (forall cli image encodedAuth err,
        In (CalledDistributionInspect cli image encodedAuth (Err err))
          (logged run) ->
        returned run =
        (EmptyString, Some (Wrap err "unable to inspect docker image"))).
Proof.
  unfold PushInvocationImage, getDockerClient, ParseOCIReference, defer,
    dbind, dcall, dprint, dret, returned, logged.
  cbn beta iota zeta.
  destruct (NewDockerCli D w) as [[cli|e] w0]; cbn;
    [|split; intros; cbn in *; intuition discriminate].
  destruct (Initialize D cli w0) as [[e|] w1]; cbn;
    [split; intros; cbn in *; intuition discriminate|].
  destruct (ParseNormalizedNamed L invocationImage) as [ref|e]; cbn;
    [|split; intros; cbn in *; intuition discriminate].
  destruct (ParseRepositoryInfo D ref) as [repoInfo|e]; cbn;
    [|split; intros; cbn in *; intuition discriminate].
  destruct (ResolveAuthConfig D cli (Index D repoInfo) w1)
    as [authConfig w2]; cbn.
  destruct (EncodeAuthToBase64 D authConfig) as [encodedAuth|e]; cbn;
    [|split; intros; cbn in *; intuition discriminate].
  destruct (ImagePush D cli invocationImage _ w2) as [[pushResponse|e] w3];
    cbn.
  2: { split; intros; cbn in *; [|intuition discriminate].
       repeat match goal with
              | H : _ \/ _ |- _ => destruct H as [H|H]; try discriminate H
              | H : False |- _ => destruct H
              end.
       match goal with H : CalledImagePush _ _ _ _ = _ |- _ =>
         injection H as <- <- <- <- end.
       now split. }
  destruct (DisplayJSONMessagesStream D pushResponse _ false w3)
    as [[written [e|]] w4]; cbn -[String.prefix].
  { destruct (String.prefix "denied" (Error e)); cbn;
      split; intros; cbn in *; intuition discriminate. }
  destruct (DistributionInspect D cli invocationImage encodedAuth w4)
    as [[digest|e] w5]; cbn.
  { split; intros; cbn in *; intuition discriminate. }
  split; intros; cbn in *; [intuition discriminate|].
  repeat match goal with
         | H : _ \/ _ |- _ => destruct H as [H|H]; try discriminate H
         | H : False |- _ => destruct H
         end.
  match goal with H : CalledDistributionInspect _ _ _ _ = _ |- _ =>
    injection H as <- <- <- <- end.
  reflexivity.
Qed.

End InvocationImageFailures.

(** X2 on the registry in memory: the bundle under [reg.example/app:v1]
    comes back with its digested invocation image. *)
Lemma PullBundle_result_invariant_witness :
  exists invocationImage others,
    InvocationImages (Toy.bun [Toy.image "reg.example/img" "sha256:aaa"]) =
    invocationImage :: others
    /\ Digest invocationImage <> EmptyString.
Proof.
  apply (PullBundle_result_invariant Toy.lib Toy.quiet "reg.example/app:v1"
           false ToyWorlds.shelf
           (Toy.bun [Toy.image "reg.example/img" "sha256:aaa"])
           (addr_of
              (make_map {["orig/img:1" := "reg.example/img@sha256:aaa"]}))
           None ToyWorlds.shelf
           (pullLog Toy.lib Toy.quiet false "reg.example/app:v1"
              ToyWorlds.shelf)).
  reflexivity.
Defined.

(** X5 on the registry in memory: the bundle published under
    [reg.example/app:v2] is the one the fixup handed back, with its map. *)
Lemma PushBundle_publishes_fixed_bundle_witness :
  exists v log,
    PushBundle Toy.lib (Toy.bun [Toy.image "orig/img:1" "sha256:aaa"])
      "reg.example/app:v2" nil_map true ToyWorlds.bare =
    Returned (L := Toy.lib) v
      (snd (Push Toy.lib (Toy.bun [Toy.image "orig/img:1" "sha256:aaa"])
              (make_map {["orig/img:1" := "reg.example/orig/img:1"]})
              "reg.example/app:v2" ["reg.example"] ToyWorlds.bare))
      log
    /\ filter (fun e => isPush e = true) log =
       [CallPush (L := Toy.lib)
          (Toy.bun [Toy.image "orig/img:1" "sha256:aaa"])
          (make_map {["orig/img:1" := "reg.example/orig/img:1"]})
          "reg.example/app:v2" ["reg.example"]].
Proof.
  apply (PushBundle_publishes_fixed_bundle Toy.lib
           (Toy.bun [Toy.image "orig/img:1" "sha256:aaa"])
           "reg.example/app:v2" nil_map true ToyWorlds.bare
           "reg.example/app:v2"
           (Toy.copyEvents "orig/img:1" None)
           (Toy.bun [Toy.image "orig/img:1" "sha256:aaa"])
           (make_map {["orig/img:1" := "reg.example/orig/img:1"]})
           ToyWorlds.bare).
  - reflexivity.
  - vm_compute. reflexivity.
Defined.

(** X3 on the registry in memory: a quiet pull writes nothing to [Err]. *)
Lemma PullBundle_debug_only_writes_Err_witness :
  filter (fun e => isWriteErr e = true)
    (log_of (PullBundle Toy.lib Toy.quiet "reg.example/app:v1" true
               ToyWorlds.shelf))
  = [].
Proof.
  apply (proj2 (PullBundle_debug_only_writes_Err Toy.lib Toy.quiet
                  Toy.verbose "reg.example/app:v1" true ToyWorlds.shelf)).
  reflexivity.
Defined.


(** X8 on the client in memory: the response of the push of
    [reg.example/img:v1] is closed last. *)
Lemma PushInvocationImage_closes_response_witness :
  last (logged (PushInvocationImage Toy.lib ToyDocker.docker
                  "reg.example/img:v1" ToyWorlds.bare)) =
  Some (CalledClose (D := ToyDocker.docker) "reg.example/img:v1").
Proof.
  apply (proj2 (proj2 (PushInvocationImage_closes_response Toy.lib
                         ToyDocker.docker "reg.example/img:v1"
                         ToyWorlds.bare))).
  reflexivity.
Defined.

(** X9 on the client in memory: the digest returned for
    [reg.example/img:v1] is the one its inspection reported. *)
Lemma PushInvocationImage_digest_witness :
  returned (PushInvocationImage Toy.lib ToyDocker.docker
              "reg.example/img:v1" ToyWorlds.bare) =
  ("sha256:reg.example/img:v1", None).
Proof.
  apply (proj2 (proj2 (PushInvocationImage_digest Toy.lib ToyDocker.docker
                         "reg.example/img:v1" ToyWorlds.bare))
           tt "reg.example/img:v1" "b64:user@reg.example").
  do 6 right. left. reflexivity.
Defined.

(** X10 on the client in memory: [reg.example/img:v1] is pushed, and it is
    inspected under the name and with the credentials it was pushed
    with. *)
Lemma PushInvocationImage_pushes_what_it_was_given_witness :
  let log :=
    logged (PushInvocationImage Toy.lib ToyDocker.docker
              "reg.example/img:v1" ToyWorlds.bare) in
  let options := {| All := true; RegistryAuth := "b64:user@reg.example" |} in
  In (CalledImagePush (D := ToyDocker.docker) tt "reg.example/img:v1"
        options (Ok "reg.example/img:v1")) log
  /\ In (CalledDistributionInspect (D := ToyDocker.docker) tt
           "reg.example/img:v1" "b64:user@reg.example"
           (Ok "sha256:reg.example/img:v1")) log
  /\ "reg.example/img:v1" = "reg.example/img:v1"
  /\ "b64:user@reg.example" = RegistryAuth options.
Proof.
  cbv zeta.
  assert (In (CalledImagePush (D := ToyDocker.docker) tt
                "reg.example/img:v1"
                {| All := true; RegistryAuth := "b64:user@reg.example" |}
                (Ok "reg.example/img:v1"))
            (logged (PushInvocationImage Toy.lib ToyDocker.docker
                       "reg.example/img:v1" ToyWorlds.bare))) as Hpush
    by (do 4 right; left; reflexivity).
  assert (In (CalledDistributionInspect (D := ToyDocker.docker) tt
                "reg.example/img:v1" "b64:user@reg.example"
                (Ok "sha256:reg.example/img:v1"))
            (logged (PushInvocationImage Toy.lib ToyDocker.docker
                       "reg.example/img:v1" ToyWorlds.bare))) as Hinspect
    by (do 6 right; left; reflexivity).
  split; [exact Hpush|]. split; [exact Hinspect|].
  exact (proj1 (proj2 (proj2
           (PushInvocationImage_pushes_what_it_was_given Toy.lib
              ToyDocker.docker "reg.example/img:v1" ToyWorlds.bare tt
              "reg.example/img:v1"
              {| All := true; RegistryAuth := "b64:user@reg.example" |}
              (Ok "reg.example/img:v1") Hpush)))
           tt "reg.example/img:v1" "b64:user@reg.example"
           (Ok "sha256:reg.example/img:v1") Hinspect).
Defined.


(** X12 on the client in memory: a push to [readonly.example] is denied, a
    push to [flaky.example] loses its stream. *)
Lemma PushInvocationImage_stream_error_witness :
  returned (PushInvocationImage Toy.lib ToyDocker.docker
              "readonly.example/img:v1" ToyWorlds.bare) =
  (EmptyString,
   Some (Wrap
           (errorString "denied: requested access to the resource is denied")
           "docker push authentication failed"))
  /\ returned (PushInvocationImage Toy.lib ToyDocker.docker
                 "flaky.example/img:v1" ToyWorlds.bare) =
     (EmptyString,
      Some (Wrap (errorString "unexpected EOF")
              "failed to stream docker push stdout")).
Proof.
  split.
  - apply (PushInvocationImage_stream_error Toy.lib ToyDocker.docker
             "readonly.example/img:v1" ToyWorlds.bare "readonly.example/img:v1"
             1%N false EmptyString
             (errorString
                "denied: requested access to the resource is denied")).
    do 5 right. left. reflexivity.
  - apply (PushInvocationImage_stream_error Toy.lib ToyDocker.docker
             "flaky.example/img:v1" ToyWorlds.bare "flaky.example/img:v1"
             1%N false EmptyString (errorString "unexpected EOF")).
    do 5 right. left. reflexivity.
Defined.

(** X13 on the client in memory: no client can be made without a docker
    configuration, and none can be initialized without a daemon. *)
Lemma PushInvocationImage_without_client_witness :
  returned (PushInvocationImage Toy.lib ToyDocker.docker
              "reg.example/img:v1" ToyWorlds.noconfig) =
  (EmptyString,
   Some (Wrap (errorString "no docker configuration")
           "could not create new docker client"))
  /\ returned (PushInvocationImage Toy.lib ToyDocker.docker
                 "reg.example/img:v1"
                 ToyWorlds.nodaemon) =
     (EmptyString, Some (errorString "cannot connect to the docker daemon")).
Proof.
  split.
  - apply (proj1 (PushInvocationImage_without_client Toy.lib
                    ToyDocker.docker "reg.example/img:v1"
                    ToyWorlds.noconfig)
             (errorString "no docker configuration")).
    left. reflexivity.
  - apply (proj2 (PushInvocationImage_without_client Toy.lib
                    ToyDocker.docker "reg.example/img:v1"
                    ToyWorlds.nodaemon)
             tt (errorString "cannot connect to the docker daemon")).
    right. left. reflexivity.
Defined.

(** X14 on the registry in memory: the map a bundle was pulled with goes to
    the fixup of the next push. *)
Lemma PushBundle_hands_map_to_fixup_witness :
  fixupMaps
    (log_of
       (PushBundle Toy.lib
          (Toy.bun [Toy.image "reg.example/img" "sha256:aaa"])
          "other.example/app:v1"
          (make_map {["orig/img:1" := "reg.example/img@sha256:aaa"]})
          false ToyWorlds.bare)) =
  [make_map {["orig/img:1" := "reg.example/img@sha256:aaa"]}].
Proof.
  apply (PushBundle_hands_map_to_fixup Toy.lib
           (Toy.bun [Toy.image "reg.example/img" "sha256:aaa"])
           "other.example/app:v1"
           {["orig/img:1" := "reg.example/img@sha256:aaa"]} false ToyWorlds.bare
           "other.example/app:v1").
  reflexivity.
Defined.

(** X15 on the client in memory: an image under [down.example] cannot be
    pushed, and an image under [ghost.example] cannot be inspected. *)
Lemma PushInvocationImage_registry_errors_witness :
  (returned (PushInvocationImage Toy.lib ToyDocker.docker
               "down.example/img:v1" ToyWorlds.bare) =
   (EmptyString,
    Some (Wrap (foreign "*net.OpError" "connection refused")
            "docker push failed"))
   /\ closed (logged (PushInvocationImage Toy.lib ToyDocker.docker
                        "down.example/img:v1" ToyWorlds.bare)) = [])
  /\ returned (PushInvocationImage Toy.lib ToyDocker.docker
                 "ghost.example/img:v1" ToyWorlds.bare) =
     (EmptyString,
      Some (Wrap (foreign "*errdefs.errNotFound" "manifest unknown")
              "unable to inspect docker image")).
Proof.
  split.
  - apply (proj1 (PushInvocationImage_registry_errors Toy.lib
                    ToyDocker.docker "down.example/img:v1" ToyWorlds.bare)
             tt "down.example/img:v1"
             {| All := true; RegistryAuth := "b64:user@down.example" |}
             (foreign "*net.OpError" "connection refused")).
    do 4 right. left. reflexivity.
  - apply (proj2 (PushInvocationImage_registry_errors Toy.lib
                    ToyDocker.docker "ghost.example/img:v1" ToyWorlds.bare)
             tt "ghost.example/img:v1" "b64:user@ghost.example"
             (foreign "*errdefs.errNotFound" "manifest unknown")).
    do 6 right. left. reflexivity.
Defined.
